(** * RoPADet: profile generation and the class-weighted criterion

    A shallow embedding of
    - [examples/wav2vec/profiles_gen.py]: the collation step, the dataset
      wrapper, the accumulation of per-identifier embeddings, their
      reduction to a mean profile and the path the profiles are saved to;
    - [fairseq/criterions/cross_entropy.py]: [forward], [compute_loss],
      [reduce_metrics] and [logging_outputs_can_be_summed].

    Conventions of the embedding.
    - Tensor and array entries are rationals ([Qc]). In the profile
      generator the tensors are float32. The conversion of an array to
      float32 at the collation rounds to the nearest binary32 value, ties
      to even ([f32.round]); a magnitude that the conversion turns into
      an infinity is outside the model, and what is stated about a
      converted entry is stated for the entries in range.
    - [torch.mean] is not defined in the two files, and they do not fix
      the order in which its kernels add the values of an axis or the
      form of their division: the float32 mean of the values of an axis
      is taken through the class [TorchMean]. [sequential_mean] is the
      mean that adds in float32 from the first value to the last and
      divides in float32, as a run on few values does; [exact_mean] is
      the mean in exact arithmetic.
    - The arithmetic of the criterion is written in exact rationals: what
      is stated about a loss or a metric is the formula that the float32
      evaluation follows up to rounding, and nothing is concluded from its
      exactness unless the statement says so.
    - Device placement ([.cuda()], [.to('cuda')], [.cpu()], [.detach()])
      is not part of the model.
    - A Python exception is the result [None]; so is a division whose
      result is not a rational number (a zero denominator).
    - [math.exp], [math.log], and the contrastive loss of
      [fairseq.EncoderContrastive] are not defined in the two files; they
      are taken through the classes [Math] and [EncoderContrastive]. *)

From Stdlib Require Import QArith Qcanon Qround Ascii String.
From stdpp Require Import base option list strings numbers gmap.

Local Open Scope Qc_scope.

(** ** Scalars *)

Abbreviation QZ := Qc_of_Z.

Definition Qnat (n : nat) : Qc := Qc_of_Z (Z.of_nat n).

(** Python's [a / b] on numbers: [ZeroDivisionError] for a zero divisor. *)
Definition qdiv (a b : Qc) : option Qc :=
  if decide (b = 0) then None else Some (a / b).

Definition qsum (l : list Qc) : Qc := foldr Qcplus 0 l.

(** ** float32: rounding to the nearest binary32 value *)

Module f32.

(** [2 ^ e] for an integer [e] of either sign. *)
Definition pow2 (e : Z) : Qc :=
  if (0 <=? e)%Z then QZ (2 ^ e) else / QZ (2 ^ (- e)).

(** The binary exponent of a number other than zero: the [k] with
    [2 ^ k <= |q| < 2 ^ (k + 1)]. *)
Definition ilog2 (q : Qc) : Z :=
  let a := if decide (q < 0) then - q else q in
  let k := (Z.log2 (Qnum a) - Z.log2 (Zpos (Qden a)))%Z in
  if decide (a < pow2 k) then (k - 1)%Z else k.

(** The nearest integer, a tie going to the even one. *)
Definition rne (q : Qc) : Z :=
  let f := Qfloor q in
  let r := q - QZ f in
  let half := Q2Qc (1 # 2) in
  if decide (r < half) then f
  else if decide (half < r) then (f + 1)%Z
  else if Z.even f then f else (f + 1)%Z.

(** The nearest binary32 value: 24 significant bits, the last of weight
    [2 ^ (k - 23)] for a number of exponent [k] and of weight [2 ^ -149]
    below the normal range. *)
Definition round (q : Qc) : Qc :=
  if decide (q = 0) then 0
  else
    let e := Z.max (ilog2 q - 23) (-149) in
    QZ (rne (q / pow2 e)) * pow2 e.

(** The float32 sum of two numbers, and a sum accumulated from left to
    right. *)
Definition add (x y : Qc) : Qc := round (x + y).

Definition sum (l : list Qc) : Qc := foldl add 0 l.

(** The largest binary32 value, [(2 ^ 24 - 1) * 2 ^ 104]. *)
Definition max_finite : Qc := QZ (2 ^ 24 - 1) * pow2 104.

(** The numbers that the conversion to float32 takes to a binary32 value
    and not to an infinity. *)
Definition in_range (q : Qc) : Prop :=
  - max_finite ≤ round q ∧ round q ≤ max_finite.

(** The binary32 values: the numbers in range that rounding leaves as
    they are. *)
Definition representable (q : Qc) : Prop := round q = q ∧ in_range q.

End f32.

(** ** Python strings: [str.rfind] and the slice [s[:n]] *)

Module py.

Fixpoint rfind_from (i : Z) (last : Z) (c : ascii) (s : string) : Z :=
  match s with
  | EmptyString => last
  | String a s' =>
      rfind_from (i + 1) (if Ascii.eqb a c then i else last) c s'
  end.

(** [s.rfind(c)] for a one-character [c]: the highest index at which [c]
    occurs, [-1] when it does not occur. *)
Definition rfind (s : string) (c : ascii) : Z := rfind_from 0 (-1) c s.

(** [s[:n]]: a negative [n] counts from the end; out-of-range bounds are
    clamped. *)
Definition slice_to (s : string) (n : Z) : string :=
  let len := Z.of_nat (String.length s) in
  let stop := if (n <? 0)%Z then Z.max 0 (len + n) else Z.min n len in
  substring 0 (Z.to_nat stop) s.

End py.

(** [SAVE_PATH = args.path[:args.path.rfind('/')] + '/profile.pt'] *)
Definition SAVE_PATH (path : string) : string :=
  py.slice_to path (py.rfind path "/"%char) +:+ "/profile.pt".

(** ** [logging_outputs_can_be_summed] *)

Definition logging_outputs_can_be_summed (_ : unit) : bool := false.

(** ** Error-aware loops *)

(** A [for] loop whose body may raise: the state is threaded from left to
    right and the first failure aborts the loop. *)
Fixpoint foldlM {A St : Type} (body : St → A → option St) (s : St)
    (l : list A) : option St :=
  match l with
  | [] => Some s
  | a :: l' => s' ← body s a; foldlM body s' l'
  end.

(** ** Arrays and tensors of fixed rank: a shape and an index function

    Entries outside the shape carry no meaning. *)

Record array2 (A : Type) := Array2 {
  shape0 : nat;
  shape1 : nat;
  at2 : nat → nat → A
}.
Arguments Array2 {A} _ _ _.
Arguments shape0 {A} _.
Arguments shape1 {A} _.
Arguments at2 {A} _ _ _.

Record array3 (A : Type) := Array3 {
  dim0 : nat;
  dim1 : nat;
  dim2 : nat;
  at3 : nat → nat → nat → A
}.
Arguments Array3 {A} _ _ _ _.
Arguments dim0 {A} _.
Arguments dim1 {A} _.
Arguments dim2 {A} _.
Arguments at3 {A} _ _ _ _.

(** The entries of an array, row by row. *)
Definition rows_of {A} (a : array2 A) : list (list A) :=
  (λ r, at2 a r <$> seq 0 (shape1 a)) <$> seq 0 (shape0 a).

Definition planes_of {A} (t : array3 A) : list (list (list A)) :=
  (λ i, (λ r, at3 t i r <$> seq 0 (dim2 t)) <$> seq 0 (dim1 t))
    <$> seq 0 (dim0 t).

Definition of_rows {A} (d : A) (ncols : nat) (rows : list (list A)) : array2 A :=
  Array2 (length rows) ncols (λ r c, default d (rows !! r ≫= (.!! c))).

Module torch.

(** [torch.zeros((n, m))]: a negative dimension is an error. *)
Definition zeros2 {A} (zero : A) (n : nat) (m : Z) : option (array2 A) :=
  if (m <? 0)%Z then None
  else Some (Array2 n (Z.to_nat m) (λ _ _, zero)).

(** [torch.zeros((b, n, m))]. *)
Definition zeros3 {A} (zero : A) (b n : nat) (m : Z) : option (array3 A) :=
  if (m <? 0)%Z then None
  else Some (Array3 b n (Z.to_nat m) (λ _ _ _, zero)).

(** [torch.cat([a, b], dim=1)] on matrices: the row counts must agree. *)
Definition cat_dim1 {A} (a b : array2 A) : option (array2 A) :=
  if decide (shape0 a = shape0 b) then
    Some (Array2 (shape0 a) (shape1 a + shape1 b)
            (λ r c, if decide (c < shape1 a)%nat then at2 a r c
                    else at2 b r (c - shape1 a)))
  else None.

(** Broadcasting of one axis of length [n] to length [m]. *)
Definition broadcastable (n m : nat) : bool :=
  bool_decide (n = m) || bool_decide (n = 1%nat).

(** [t[i] = v] for a rank-3 [t] and a matrix [v]: [i] must be in range
    and [v] must have the shape of a plane of [t], an axis of length one
    being broadcast to the length of the plane's axis, whatever it is.
    The entries of [v] are converted to the type of the entries of [t],
    by [cast]. *)
Definition setitem3 {A B} (cast : B → A) (t : array3 A) (i : nat)
    (v : array2 B) : option (array3 A) :=
  if decide (i < dim0 t)%nat then
    if broadcastable (shape0 v) (dim1 t) && broadcastable (shape1 v) (dim2 t)
    then
      Some (Array3 (dim0 t) (dim1 t) (dim2 t)
              (λ i' r c,
                 if decide (i' = i)
                 then cast
                        (at2 v (if decide (shape0 v = dim1 t) then r else 0%nat)
                               (if decide (shape1 v = dim2 t) then c else 0%nat))
                 else at3 t i' r c))
    else None
  else None.

(** [t[i][:k] = v] for a matrix [t] and a scalar [v]: the slice is
    clamped to the row. *)
Definition fill_prefix {A} (t : array2 A) (i k : nat) (v : A)
  : option (array2 A) :=
  if decide (i < shape0 t)%nat then
    Some (Array2 (shape0 t) (shape1 t)
            (λ i' c, if decide (i' = i ∧ c < k)%nat then v else at2 t i' c))
  else None.

(** [t.unsqueeze(dim=1)] on a matrix. *)
Definition unsqueeze1 {A} (t : array2 A) : array3 A :=
  Array3 (shape0 t) 1 (shape1 t) (λ i _ c, at2 t i c).

End torch.

(** ** The dataset wrapper and the collation step *)

(** One element of a batch: the tuple [(id, x, y, x.shape[1])]. *)
Record item := Item {
  it_id : string;
  it_x : array2 Qc;
  it_label : Z;
  it_len : Z
}.

Record MyDataset := {
  ds_ids : list string;
  ds_data : list (array2 Qc);
  ds_targets : list Z
}.

(** [MyDataset.__getitem__] *)
Definition getitem (self : MyDataset) (index : nat) : option item :=
  id ← ds_ids self !! index;
  x ← ds_data self !! index;
  y ← ds_targets self !! index;
  Some (Item id x y (Z.of_nat (shape1 x))).

(** [MyDataset.__len__] *)
Definition ds_len (self : MyDataset) : nat := length (ds_data self).

(** Python's [max] of a non-empty sequence of integers. *)
Definition py_max (l : list Z) : option Z :=
  match l with
  | [] => None
  | z :: l' => Some (foldl Z.max z l')
  end.

(** The body of the loop of [collate_fn], for index [i]. [features] is
    the float32 tensor of [torch.zeros]; the array of the example, of
    whatever type its file has, is converted to float32 when it is
    assigned. *)
Definition collate_step (data : list item) (max_len : Z)
    (st : array3 Qc * array2 Z) (i : nat) : option (array3 Qc * array2 Z) :=
  let '(features, lengths) := st in
  d ← data !! i;
  let j := shape0 (it_x d) in
  let k := shape1 (it_x d) in
  pad ← torch.zeros2 0 j (max_len - Z.of_nat k);
  row ← torch.cat_dim1 (it_x d) pad;
  features' ← torch.setitem3 f32.round features i row;
  lengths' ← torch.fill_prefix lengths i k 1%Z;
  Some (features', lengths').

(** [collate_fn]: the identifiers, the zero-padded features, the labels and
    the mask of the original time positions. *)
Definition collate_fn (data : list item)
  : option (list string * array3 Qc * list Z * array2 Z) :=
  let ids := it_id <$> data in
  let labels := it_label <$> data in
  max_len ← py_max (it_len <$> data);
  d0 ← data !! 0%nat;
  let n_ftrs := shape0 (it_x d0) in
  features ← torch.zeros3 0 (length data) n_ftrs max_len;
  lengths ← torch.zeros2 0%Z (length data) max_len;
  '(features, lengths) ←
    foldlM (collate_step data max_len) (features, lengths)
           (seq 0 (length data));
  Some (ids, features, labels, lengths).

(** ** Tensors of any rank: a shape and the entries in row-major order *)

Record tensor := Tensor {
  shape : list nat;
  data : list Qc
}.

Definition numel (s : list nat) : nat := foldr Nat.mul 1%nat s.

(** The entries of a tensor fill its shape. *)
Definition tensor_wf (t : tensor) : Prop := length (data t) = numel (shape t).

Global Instance tensor_eq_dec : EqDecision tensor.
Proof. solve_decision. Defined.

(** A rank-1 tensor. *)
Definition vec (l : list Qc) : tensor := Tensor [length l] l.

(** [n] consecutive blocks of [k] entries. *)
Fixpoint chunks (n k : nat) (l : list Qc) : list (list Qc) :=
  match n with
  | O => []
  | S n' => take k l :: chunks n' k (drop k l)
  end.

(** ** What the pass takes from the tensor runtime

    [mean32 l] is the float32 mean of the values [l] of an axis, in the
    order of the axis, as [torch.mean] computes it for one position of
    the result. The mean of one binary32 value is that value. *)
Class TorchMean := {
  mean32 : list Qc → Qc;
  mean32_one : ∀ x, f32.representable x → mean32 [x] = x
}.

Module torch_t.

(** [t.squeeze()]: every axis of length one is removed. *)
Definition squeeze (t : tensor) : tensor :=
  Tensor (filter (λ n, n ≠ 1%nat) (shape t)) (data t).

(** [torch.mean(t, dim=0)] on a float32 tensor: every position of the
    result holds the float32 mean of the values of that position along
    the leading axis; a rank-0 tensor is its own mean. The mean over an
    axis of length zero, which is not a number, has no value in the
    model. *)
Definition mean_dim0 `{TorchMean} (t : tensor) : option tensor :=
  match shape t with
  | [] => Some t
  | n :: rest =>
      if decide (n = 0%nat) then None
      else
        let k := numel rest in
        let slices := chunks n k (data t) in
        Some (Tensor rest
                ((λ j, mean32 ((λ b, default 0 (b !! j)) <$> slices))
                   <$> seq 0 k))
  end.

(** [torch.stack(ts)] along a new leading axis: the list must not be
    empty and all shapes must agree. *)
Definition stack (ts : list tensor) : option tensor :=
  match ts with
  | [] => None
  | t0 :: _ =>
      if decide (Forall (λ t, shape t = shape t0) ts)
      then Some (Tensor (length ts :: shape t0) (concat (data <$> ts)))
      else None
  end.

End torch_t.

(** ** The generation pass *)

(** [profiles = defaultdict(list)]: a dictionary in insertion order. *)
Abbreviation dict V := (list (string * V)).

Fixpoint dict_get {V} (d : dict V) (key : string) : option V :=
  match d with
  | [] => None
  | (k, v) :: d' => if decide (k = key) then Some v else dict_get d' key
  end.

(** [profiles[key].append(x)] on a [defaultdict(list)]. *)
Fixpoint dict_append {V} (d : dict (list V)) (key : string) (x : V)
  : dict (list V) :=
  match d with
  | [] => [(key, [x])]
  | (k, vs) :: d' =>
      if decide (k = key) then (k, vs ++ [x]) :: d'
      else (k, vs) :: dict_append d' key x
  end.

(** The model in inference mode: [model(inputs, lengths,
    features_only=True)['x']]. *)
Definition feature_model := array3 Qc → array3 Z → tensor.

(** The body of the loop over the data loader, up to the embedding that is
    appended: the time average of the squeezed features, and [ids[0]]. *)
Definition observe `{TorchMean} (model : feature_model)
    (batch : list string * array3 Qc * list Z * array2 Z)
  : option (string * tensor) :=
  let '(ids, inputs, labels, lengths) := batch in
  let lengths := torch.unsqueeze1 lengths in
  let outs_x := model inputs lengths in
  outputs ← torch_t.mean_dim0 (torch_t.squeeze outs_x);
  id ← ids !! 0%nat;
  Some (id, outputs).

(** The accumulation of a stream of [(identifier, embedding)] pairs. *)
Definition accumulate (obs : list (string * tensor)) : dict (list tensor) :=
  foldl (λ profiles o, dict_append profiles o.1 o.2) [] obs.

(** The batch of index [i] of [DataLoader(test_dataset, batch_size=1,
    shuffle=False, collate_fn=collate_fn)]. *)
Definition batch_of (ds : MyDataset) (i : nat)
  : option (list string * array3 Qc * list Z * array2 Z) :=
  d ← getitem ds i; collate_fn [d].

(** The loop over the data loader. *)
Definition run_loop `{TorchMean} (model : feature_model) (ds : MyDataset)
  : option (dict (list tensor)) :=
  foldlM (λ profiles i,
            batch ← batch_of ds i;
            o ← observe model batch;
            Some (dict_append profiles o.1 o.2))
         [] (seq 0 (ds_len ds)).

(** [torch.mean(torch.stack(val), dim=0)] *)
Definition mean_stack `{TorchMean} (val : list tensor) : option tensor :=
  torch_t.stack val ≫= torch_t.mean_dim0.

(** The final loop over [profiles.items()]: what is printed, [count], and
    the dictionary with every list replaced by its mean. *)
Definition finalize `{TorchMean} (profiles : dict (list tensor))
  : option (list (string * nat) * nat * dict tensor) :=
  foldlM (λ '(printed, count, out) '(key, val),
            m ← mean_stack val;
            Some (printed ++ [(key, length val)],
                  (count + length val)%nat,
                  out ++ [(key, m)]))
         ([], 0%nat, []) profiles.

(** The profiles stored for a stream of observations. *)
Definition stored_profiles `{TorchMean} (obs : list (string * tensor))
  : option (dict tensor) :=
  r ← finalize (accumulate obs); Some r.2.

(** The whole pass: the path written to and the mapping written. *)
Definition generation_pass `{TorchMean} (model : feature_model)
    (ds : MyDataset) (path : string) : option (string * dict tensor) :=
  profiles ← run_loop model ds;
  r ← finalize profiles;
  Some (SAVE_PATH path, r.2).

(** *** The mean of a profile, in the words of the specification *)

Definition embeddings_for (id : string) (obs : list (string * tensor))
  : list tensor :=
  snd <$> filter (λ o, o.1 = id) obs.

(** Entry [j] of the elementwise mean: the sum of the entries [j] of the
    vectors divided by their number. *)
Definition elementwise_mean (es : list tensor) : option tensor :=
  match es with
  | [] => None
  | e0 :: _ =>
      Some (Tensor (shape e0)
              ((λ j, qsum ((λ e, default 0 (data e !! j)) <$> es)
                       / Qnat (length es))
                 <$> seq 0 (numel (shape e0))))
  end.

(** ** Values of the criterion: numbers, rank-1 tensors, Python lists

    The operators below are written in exact arithmetic, for Python
    numbers and for tensors alike: the rounding of a float32 tensor, as of
    the loss, is not part of them. *)

Inductive pyval :=
  | Num (q : Qc)          (* an [int], a [float] or a rank-0 tensor *)
  | Vec (v : list Qc)     (* a rank-1 tensor *)
  | Lst (l : list Qc).    (* a Python list of numbers *)

Global Instance pyval_eq_dec : EqDecision pyval.
Proof. solve_decision. Defined.

(** Elementwise application with broadcasting of an axis of length one. *)
Definition broadcast2 {A} (f : Qc → Qc → option A) (u v : list Qc)
  : option (list A) :=
  if decide (length u = length v) then
    mapM (λ p, f p.1 p.2) (zip u v)
  else
    match u, v with
    | [x], _ => mapM (f x) v
    | _, [y] => mapM (λ x, f x y) u
    | _, _ => None
    end.

(** An arithmetic operator on numbers and tensors; a list operand is a
    [TypeError]. *)
Definition py_arith (f : Qc → Qc → option Qc) (a b : pyval) : option pyval :=
  match a, b with
  | Num x, Num y => Num <$> f x y
  | Num x, Vec v => Vec <$> mapM (f x) v
  | Vec u, Num y => Vec <$> mapM (λ x, f x y) u
  | Vec u, Vec v => Vec <$> broadcast2 f u v
  | _, _ => None
  end.

(** [a + b]; two lists are concatenated. *)
Definition py_add (a b : pyval) : option pyval :=
  match a, b with
  | Lst u, Lst v => Some (Lst (u ++ v))
  | _, _ => py_arith (λ x y, Some (x + y)) a b
  end.

Definition py_mul : pyval → pyval → option pyval :=
  py_arith (λ x y, Some (x * y)).

Definition py_div : pyval → pyval → option pyval := py_arith qdiv.

(** [sum(values)]: a left fold of [+] from the integer [0]. *)
Definition py_sum (values : list pyval) : option pyval :=
  foldlM py_add (Num 0) values.

(** The truth value of [a != b] in a condition: a tensor of more than one
    entry has no truth value. *)
Definition py_ne (a b : pyval) : option bool :=
  let ne x y := Some (negb (bool_decide (x = y))) in
  match a, b with
  | Num x, Num y => ne x y
  | Num x, Vec v => r ← broadcast2 ne [x] v;
                    match r with [t] => Some t | _ => None end
  | Vec u, Num y => r ← broadcast2 ne u [y];
                    match r with [t] => Some t | _ => None end
  | Vec u, Vec v => r ← broadcast2 ne u v;
                    match r with [t] => Some t | _ => None end
  | Lst u, Lst v => Some (negb (bool_decide (u = v)))
  | Lst _, Num _ | Num _, Lst _ => Some true
  | _, _ => None
  end.

(** ** What the criterion takes from outside the two files *)

Class Math := {
  math_exp : Qc → Qc;
  math_log : Qc → Qc
}.

(** [fairseq.EncoderContrastive.SupConLoss()(features)] *)
Class EncoderContrastive := {
  SupConLoss : list (list (list Qc)) → option Qc
}.

(** A matrix of the criterion: the list of its rows. *)
Definition matrix := list (list Qc).

(** The output of the model: the logits, or in the encoder-contrastive mode
    the 5-tuple around them. *)
Inductive net_out :=
  | Logits (t : matrix)
  | Tuple5 (ae_input ae_hidden_output cnn_hidden_output ae_output
            net_output : matrix).

Record sample (I : Type) := Sample {
  net_input : I;
  target : list Z;
  ntokens : Z
}.
Arguments Sample {I} _ _ _.
Arguments net_input {I} _.
Arguments target {I} _.
Arguments ntokens {I} _.

(** The methods of the model that the criterion calls. *)
Record Model (I : Type) := {
  model_call : I → net_out;
  get_normalized_probs : net_out → option matrix;   (* [log_probs=True] *)
  get_targets : sample I → net_out → list Z
}.
Arguments model_call {I} _ _.
Arguments get_normalized_probs {I} _ _.
Arguments get_targets {I} _ _ _.

Module F.

(** The term of one example of [F.nll_loss]: [ignore_index] has its
    default [-100]; a target outside the classes is an error. *)
Definition nll_item (weight row : list Qc) (t : Z) : option Qc :=
  if decide (t = -100)%Z then Some 0
  else if decide (0 ≤ t < Z.of_nat (length row))%Z then
    w ← weight !! Z.to_nat t;
    x ← row !! Z.to_nat t;
    Some (- (w * x))
  else None.

(** [F.nll_loss(input, target, reduction=..., weight=weight)] for an
    input of shape (N, C): the batch sizes must agree and the weight must
    have one entry per class. *)
Definition nll_loss (input : matrix) (target : list Z)
    (reduction_sum : bool) (weight : list Qc) : option pyval :=
  if decide (length input = length target) then
    if decide (Forall (λ row, length row = length weight) input) then
      items ← mapM (λ p, nll_item weight p.1 p.2) (zip input target);
      Some (if reduction_sum then Num (qsum items) else Vec items)
    else None
  else None.

Definition softmax_row `{Math} (row : list Qc) : list Qc :=
  let e := math_exp <$> row in
  (λ x, x / qsum e) <$> e.

(** [F.softmax(net_output, dim=1)]: only a tensor has a softmax. *)
Definition softmax `{Math} (net_output : net_out) : option matrix :=
  match net_output with
  | Logits t => Some (softmax_row <$> t)
  | Tuple5 _ _ _ _ _ => None
  end.

(** [torch.nn.MSELoss()(input, target)] for equal shapes: the mean of
    the squared differences. *)
Definition mse_loss (input target : matrix) : option Qc :=
  if decide (length <$> input = length <$> target) then
    let d :=
      concat (zip_with (zip_with (λ x y, (x - y) * (x - y))) input target) in
    qdiv (qsum d) (Qnat (length d))
  else None.

(** [torch.stack([a, b], dim=1)] *)
Definition stack_dim1 (a b : matrix) : option (list matrix) :=
  if decide (length <$> a = length <$> b) then
    Some (zip_with (λ x y, [x; y]) a b)
  else None.

Fixpoint argmax_from (i best_i : nat) (best : Qc) (row : list Qc) : nat :=
  match row with
  | [] => best_i
  | x :: row' =>
      if decide (best < x) then argmax_from (S i) i x row'
      else argmax_from (S i) best_i best row'
  end.

(** The index of the first greatest entry of a row. *)
Definition argmax (row : list Qc) : Z :=
  match row with
  | [] => 0%Z
  | x :: row' => Z.of_nat (argmax_from 1 0 x row')
  end.

End F.

(** ** The criterion *)

Record CrossEntropyCriterion := {
  sentence_avg : bool;
  encoder_contrastive : bool     (* [self.task.encoder_contrastive] *)
}.

(** [weight=torch.tensor([1.0, 7.0])] *)
Definition class_weights : list Qc := [QZ 1; QZ 7].

(** [0.0005] *)
Definition cl_weight : Qc := Q2Qc (5 # 10000).

(** [compute_loss]: the loss and the pair (predictions, targets). In the
    encoder-contrastive mode the output of the model is unpacked as the
    5-tuple; the logits alone are not one. *)
Definition compute_loss `{EncoderContrastive} {I}
    (self : CrossEntropyCriterion) (model : Model I)
    (net_output : net_out) (s : sample I) (reduce : bool)
  : option (pyval * (list Z * list Z)) :=
  parts ←
    (if encoder_contrastive self then
       match net_output with
       | Tuple5 ae_input ae_hidden cnn_hidden ae_output logits =>
           Some (Some (ae_input, ae_hidden, cnn_hidden, ae_output),
                 Logits logits)
       | Logits _ => None
       end
     else Some (None, net_output));
  let '(aux, net_output) := parts in
  lprobs ← get_normalized_probs model net_output;
  let target := get_targets model s net_output in
  loss ← F.nll_loss lprobs target reduce class_weights;
  loss ←
    match aux with
    | Some (ae_input, ae_hidden, cnn_hidden, ae_output) =>
        ae_loss ← F.mse_loss ae_output ae_input;
        stacked ← F.stack_dim1 ae_hidden cnn_hidden;
        cl_loss ← SupConLoss stacked;
        l ← py_add (Num ae_loss) loss;
        py_add l (Num (cl_weight * cl_loss))
    | None => Some loss
    end;
  let preds := F.argmax <$> lprobs in
  Some (loss, (preds, target)).

(** [(outputs[0] == outputs[1]).sum()] *)
Definition count_equal (preds target : list Z) : nat :=
  length (filter (λ p, p.1 = p.2) (zip preds target)).

(** [forward]: the loss, the sample size and the logging output. *)
Definition forward `{Math} `{EncoderContrastive} {I}
    (self : CrossEntropyCriterion) (model : Model I) (s : sample I)
    (reduce : bool)
  : option (pyval * Z * gmap string pyval) :=
  let net_output := model_call model (net_input s) in
  r ← compute_loss self model net_output s reduce;
  let '(loss, outputs) := r in
  let sample_size :=
    if sentence_avg self then Z.of_nat (length (target s)) else ntokens s in
  raw_predicts ← F.softmax net_output;
  predicts ←
    (if decide (length raw_predicts = 1%nat) then
       row ← raw_predicts !! 0%nat;
       p ← row !! 1%nat;
       Some [p]
     else mapM (λ row : list Qc, row !! 1%nat) raw_predicts);
  let logging_output : gmap string pyval :=
    <["loss" := loss]>
    (<["ntokens" := Num (QZ (ntokens s))]>
    (<["nsentences" := Num (Qnat (length (target s)))]>
    (<["sample_size" := Num (QZ sample_size)]>
    (<["ncorrect" := Num (Qnat (count_equal outputs.1 outputs.2))]>
    (<["predicts" := Lst predicts]>
    (<["targets" := Lst (QZ <$> outputs.2)]> ∅)))))) in
  Some (loss, sample_size, logging_output).

(** The function given to [metrics.log_derived]:
    [lambda meters: utils.get_perplexity(meters[meter].avg)]. *)
Inductive derived :=
  | Perplexity (meter : string).

(** A call of [metrics.log_scalar(key, value, weight, round=round)] or of
    [metrics.log_derived(key, fn)]. *)
Inductive metric_event :=
  | LogScalar (key : string) (value weight : pyval) (round : Z)
  | LogDerived (key : string) (fn : derived).

(** [sum(log.get(key, 0) for log in logging_outputs)] *)
Definition summed (key : string) (logging_outputs : list (gmap string pyval))
  : option pyval :=
  py_sum ((λ log, default (Num 0) (log !! key)) <$> logging_outputs).

(** [reduce_metrics]: the calls made to the metrics aggregator, in order. *)
Definition reduce_metrics `{Math} (logging_outputs : list (gmap string pyval))
  : option (list metric_event) :=
  loss_sum ← summed "loss" logging_outputs;
  ntokens ← summed "ntokens" logging_outputs;
  sample_size ← summed "sample_size" logging_outputs;
  let log2 := Num (math_log (QZ 2)) in
  v ← py_div loss_sum sample_size ≫= (λ v, py_div v log2);
  let e_loss := [LogScalar "loss" v sample_size 3] in
  differs ← py_ne sample_size ntokens;
  e_ppl ←
    (if differs : bool then
       v' ← py_div loss_sum ntokens ≫= (λ v, py_div v log2);
       Some [LogScalar "nll_loss" v' ntokens 3;
             LogDerived "ppl" (Perplexity "nll_loss")]
     else Some [LogDerived "ppl" (Perplexity "loss")]);
  ncorrect ← summed "ncorrect" logging_outputs;
  nsentences ← summed "nsentences" logging_outputs;
  acc ← py_mul (Num (QZ 100)) ncorrect ≫= (λ v, py_div v nsentences);
  Some (e_loss ++ e_ppl ++ [LogScalar "accuracy" acc nsentences 3]).

(** ** Notions used to state the properties *)

(** [c] occurs in [s]. *)
Fixpoint has_char (c : ascii) (s : string) : bool :=
  match s with
  | EmptyString => false
  | String a s' => Ascii.eqb a c || has_char c s'
  end.

(** The invariant of the loop of [collate_fn] before iteration [i]: the
    shapes are fixed, the examples below [i] are in place and the rows of
    the mask from [i] on are still zero. *)
Definition collate_inv (data : list item) (max_len : Z) (n_ftrs : nat)
    (i : nat) (st : array3 Qc * array2 Z) : Prop :=
  dim0 st.1 = length data ∧ dim1 st.1 = n_ftrs ∧
  dim2 st.1 = Z.to_nat max_len ∧
  shape0 st.2 = length data ∧ shape1 st.2 = Z.to_nat max_len ∧
  (∀ i' c, (i ≤ i')%nat → at2 st.2 i' c = 0%Z) ∧
  ∀ i' d, (i' < i)%nat → data !! i' = Some d →
    (Z.of_nat (shape1 (it_x d)) ≤ max_len)%Z ∧
    (shape0 (it_x d) = n_ftrs ∨ shape0 (it_x d) = 1%nat) ∧
    (∀ r c, (r < shape0 (it_x d))%nat → (c < shape1 (it_x d))%nat →
            at3 st.1 i' r c = f32.round (at2 (it_x d) r c)) ∧
    (∀ r c, (shape1 (it_x d) ≤ c)%nat → at3 st.1 i' r c = 0) ∧
    (∀ c, at2 st.2 i' c =
          if decide (c < shape1 (it_x d))%nat then 1%Z else 0%Z).

(** A batch whose first example has no feature row and whose second has
    one. *)
Definition degenerate_batch : list item :=
  [ Item "a" (Array2 0 1 (λ _ _, 0)) 0 1;
    Item "b" (Array2 1 1 (λ _ _, QZ 5)) 0 1 ].

(** A batch of one example, an array of one entry that float32 does not
    have. *)
Definition wide_batch : list item :=
  [ Item "a" (Array2 1 1 (λ _ _, QZ 16777217)) 0 1 ].

(** A batch whose first example has two feature rows and whose second has
    one. *)
Definition one_row_batch : list item :=
  [ Item "a" (of_rows 0 2 [[QZ 1; QZ 2]; [QZ 3; QZ 4]]) 0 2;
    Item "b" (of_rows 0 1 [[QZ 9]]) 0 1 ].

(** A dataset of two examples of two feature rows, of lengths 2 and 3, and
    the batch of both. *)
Definition example_dataset : MyDataset :=
  {| ds_ids := ["a"; "b"];
     ds_data := [ of_rows 0 2 [[QZ 1; QZ 2]; [QZ 3; QZ 4]];
                  of_rows 0 3 [[QZ 5; QZ 6; QZ 7]; [QZ 8; QZ 9; QZ 10]] ];
     ds_targets := [0%Z; 1%Z] |}.

Definition example_batch : list item :=
  default [] (mapM (getitem example_dataset) [0%nat; 1%nat]).

(** *** The mean of a profile, as the tensor runtime computes it *)

(** Entry [j] of the float32 mean of a list of embeddings: the float32
    mean of their entries [j], in the order of the list. *)
Definition mean_in_order `{TorchMean} (es : list tensor) : option tensor :=
  match es with
  | [] => None
  | e0 :: _ =>
      Some (Tensor (shape e0)
              ((λ j, mean32 ((λ e, default 0 (data e !! j)) <$> es))
                 <$> seq 0 (numel (shape e0))))
  end.

(** A float32 tensor: every entry is a binary32 value. *)
Definition float32_tensor (t : tensor) : Prop :=
  Forall f32.representable (data t).

Global Instance in_range_dec q : Decision (f32.in_range q).
Proof. unfold f32.in_range. apply _. Defined.

Global Instance representable_dec q : Decision (f32.representable q).
Proof. unfold f32.representable. apply _. Defined.

Global Instance float32_tensor_dec t : Decision (float32_tensor t).
Proof. unfold float32_tensor. apply _. Defined.

(** *** Two means *)

Lemma sequential_mean_one x :
  f32.representable x → f32.round (f32.sum [x] / Qnat (length [x])) = x.
Proof.
  intros [Hx _]. unfold f32.sum, f32.add. simpl.
  rewrite Qcplus_0_l, Hx. unfold Qnat. change (Z.of_nat 1) with 1%Z.
  rewrite Z2Qc_inj_1. by rewrite (right_id 1 Qcdiv).
Qed.

(** The float32 mean that adds from the first value to the last and
    divides by the number of values. *)
Definition sequential_mean : TorchMean :=
  {| mean32 := λ l, f32.round (f32.sum l / Qnat (length l));
     mean32_one := sequential_mean_one |}.

Lemma exact_mean_one x :
  f32.representable x → qsum [x] / Qnat (length [x]) = x.
Proof.
  intros _. simpl. rewrite Qcplus_0_r. unfold Qnat.
  change (Z.of_nat 1) with 1%Z. rewrite Z2Qc_inj_1.
  by rewrite (right_id 1 Qcdiv).
Qed.

(** The mean in exact arithmetic. *)
Definition exact_mean : TorchMean :=
  {| mean32 := λ l, qsum l / Qnat (length l);
     mean32_one := exact_mean_one |}.

(** Three observations of one identifier whose embeddings cancel, and the
    same in another order. *)
Definition cancelling_obs : list (string * tensor) :=
  [ ("A", vec [QZ 100000000]); ("A", vec [QZ 1]);
    ("A", vec [- QZ 100000000]) ].

Definition cancelling_obs_reordered : list (string * tensor) :=
  [ ("A", vec [QZ 100000000]); ("A", vec [- QZ 100000000]);
    ("A", vec [QZ 1]) ].

(** Three observations of two identifiers, and the same in another
    order. *)
Definition example_obs : list (string * tensor) :=
  [ ("A", vec [QZ 1; QZ 1]); ("B", vec [QZ 5; QZ 7]); ("A", vec [QZ 3; QZ 3]) ].

Definition example_obs_swapped : list (string * tensor) :=
  [ ("B", vec [QZ 5; QZ 7]); ("A", vec [QZ 1; QZ 1]); ("A", vec [QZ 3; QZ 3]) ].

(** *** The classification term, in the words of the specification *)

(** The fixed weight of a class: the minority class (1) weighs 7 times the
    majority class (0). *)
Definition class_weight (t : Z) : Qc :=
  if decide (t = 0)%Z then QZ 1 else if decide (t = 1)%Z then QZ 7 else 0.

(** The weighted negative log-likelihood of the targets: the sum over the
    examples of minus the weight of the target class times its
    log-probability. *)
Definition weighted_nll (lprobs : matrix) (targets : list Z) : Qc :=
  qsum (zip_with
          (λ row t, - (class_weight t * default 0 (row !! Z.to_nat t)))
          lprobs targets).

(** *** Sums over logging records and the calls logged *)

(** The sum of a numeric field over the records. *)
Definition total (key : string) (logs : list (gmap string pyval)) : Qc :=
  qsum ((λ log, match log !! key with
                | Some (Num q) => q
                | _ => 0
                end) <$> logs).

(** The scalars logged under a key, with their weights. *)
Definition scalars_of (key : string) (events : list metric_event)
  : list (pyval * pyval) :=
  omap (λ e, match e with
             | LogScalar k v w _ => if decide (k = key) then Some (v, w) else None
             | LogDerived _ _ => None
             end) events.


(** *** Instances on which the definitions are run *)

(** Rational stand-ins for [math.exp] and [math.log]. *)
Definition example_math : Math :=
  {| math_exp := λ x, 1 + x + x * x / 2;
     math_log := λ x, x - 1 |}.

Definition example_contrastive : EncoderContrastive :=
  {| SupConLoss := λ _, Some 0 |}.

(** A model whose output is already normalized and whose targets are those
    of the sample. *)
Definition example_model (out : matrix) : Model unit :=
  {| model_call := λ _, Logits out;
     get_normalized_probs :=
       λ o, match o with Logits t => Some t | Tuple5 _ _ _ _ _ => None end;
     get_targets := λ s _, target s |}.

Definition example_criterion : CrossEntropyCriterion :=
  {| sentence_avg := true; encoder_contrastive := false |}.

(** The logging outputs of two workers: batches of two sentences and ten
    tokens each, three predictions correct in all. *)
Definition example_logs : list (gmap string pyval) :=
  [ list_to_map [ ("loss", Num (QZ 4)); ("ntokens", Num (QZ 10));
                  ("nsentences", Num (QZ 2)); ("sample_size", Num (QZ 2));
                  ("ncorrect", Num (QZ 1)) ];
    list_to_map [ ("loss", Num (QZ 6)); ("ntokens", Num (QZ 10));
                  ("nsentences", Num (QZ 2)); ("sample_size", Num (QZ 2));
                  ("ncorrect", Num (QZ 2)) ] ].

(** ** Loading the features and assembling the dataset *)

(** A row of a manifest: the cells of the columns that the arguments
    [file_path], [label] and [id] of [load_dataset] name. The cell of the
    path column is a string, on which [str] is the identity. *)
Record manifest_row := ManifestRow {
  row_file_path : string;
  row_label : Z;
  row_id : string
}.

(** The files that [np.load] can read: the arrays by their path. *)
Abbreviation file_system := (gmap string (array2 Qc)).

Definition mel_suffix : string := "_mel_2048_128.npy".

(** The file read for the cell [x] of the path column: [dir_path] is put
    in front of [x], then the last [offset] characters are cut off unless
    [offset == 0], and the suffix is appended. *)
Definition feature_file (dir_path x : string) (offset : Z) : string :=
  let x := dir_path +:+ x in
  if decide (offset = 0)%Z then x +:+ mel_suffix
  else py.slice_to x (- offset) +:+ mel_suffix.

(** [load_dataset]: the arrays, the labels and the identifiers, row by
    row; a file that does not exist is an error of [np.load]. *)
Definition load_dataset (fs : file_system) (X : list manifest_row)
    (dir_path : string) (offset : Z)
  : option (list (array2 Qc) * list Z * list string) :=
  feats ← mapM (λ r, fs !! feature_file dir_path (row_file_path r) offset) X;
  Some (feats, row_label <$> X, row_id <$> X).

(** [test_set_inp = [*a_inp, *b_inp]], the two [np.concatenate] and
    [MyDataset(test_set_id, test_set_inp, test_set_out)]. *)
Definition test_dataset
    (a b : list (array2 Qc) * list Z * list string) : MyDataset :=
  {| ds_ids := a.2 ++ b.2;
     ds_data := a.1.1 ++ b.1.1;
     ds_targets := a.1.2 ++ b.1.2 |}.

(** The script: the two manifests are loaded with the default [offset=4],
    the dataset is assembled and the pass is run. *)
Definition profiles_gen `{TorchMean} (fs : file_system)
    (model : feature_model) (X_a : list manifest_row) (dir_a : string)
    (X_b : list manifest_row) (dir_b : string) (path : string)
  : option (string * dict tensor) :=
  a ← load_dataset fs X_a dir_a 4;
  b ← load_dataset fs X_b dir_b 4;
  generation_pass model (test_dataset a b) path.


(** *** Further instances on which the definitions are run *)

(** A model of the encoder-contrastive mode: its output is the 5-tuple
    around the logits [out]. *)
Definition example_tuple_model (out : matrix) : Model unit :=
  {| model_call := λ _, Tuple5 [[QZ 1]] [[QZ 2]] [[QZ 3]] [[QZ 1]] out;
     get_normalized_probs :=
       λ o, match o with Logits t => Some t | Tuple5 _ _ _ _ _ => None end;
     get_targets := λ s _, target s |}.

Definition example_contrastive_criterion : CrossEntropyCriterion :=
  {| sentence_avg := true; encoder_contrastive := true |}.

(** A model in inference mode whose features have two frames of two
    entries, and one whose features have one frame. *)
Definition example_feature_model : feature_model :=
  λ _ _, Tensor [1; 2; 2]%nat [QZ 1; QZ 3; QZ 5; QZ 7].

Definition example_one_frame_model : feature_model :=
  λ _ _, Tensor [1; 1; 2]%nat [QZ 2; QZ 4].

(** The files of the two examples of [example_dataset] and the manifests
    that name them. *)
Definition example_files : file_system :=
  list_to_map
    [ ("/data/a/cough_mel_2048_128.npy",
       of_rows 0 2 [[QZ 1; QZ 2]; [QZ 3; QZ 4]]);
      ("/data/b/voice_mel_2048_128.npy",
       of_rows 0 3 [[QZ 5; QZ 6; QZ 7]; [QZ 8; QZ 9; QZ 10]]) ].

Definition example_manifest_a : list manifest_row :=
  [ ManifestRow "cough.wav" 0 "a" ].

Definition example_manifest_b : list manifest_row :=
  [ ManifestRow "voice.wav" 1 "b" ].


(** * Properties *)

(** Closed equations between values with rational entries. *)
Ltac by_evaluation := apply (bool_decide_unpack _); vm_compute; exact I.

(** ** The save path *)

Section save_path.

Lemma rfind_from_absent c s i last :
  has_char c s = false → py.rfind_from i last c s = last.
Proof.
  revert i last. induction s as [|a s IH]; intros i last Hs; [done|].
  simpl in *. apply orb_false_iff in Hs as [-> Hs]. by apply IH.
Qed.

Lemma rfind_from_app c s1 s2 i last :
  py.rfind_from i last c (s1 +:+ s2) =
  py.rfind_from (i + Z.of_nat (String.length s1))
                (py.rfind_from i last c s1) c s2.
Proof.
  revert i last. induction s1 as [|a s1 IH]; intros i last; simpl.
  - by rewrite Z.add_0_r.
  - rewrite IH. f_equal. lia.
Qed.

Lemma substring_prefix s1 s2 :
  substring 0 (String.length s1) (s1 +:+ s2) = s1.
Proof.
  induction s1 as [|a s1 IH]; simpl.
  - by destruct s2.
  - by rewrite IH.
Qed.

Lemma rfind_last_slash dir base :
  has_char "/" base = false →
  py.rfind (dir +:+ String "/" base) "/" = Z.of_nat (String.length dir).
Proof.
  intros Hb. unfold py.rfind. rewrite rfind_from_app. simpl.
  by rewrite rfind_from_absent.
Qed.

(** X13: For a checkpoint path with a directory part, the profiles go to
    [profile.pt] in that directory. *)
Lemma SAVE_PATH_in_checkpoint_directory dir base :
  has_char "/" base = false →
  SAVE_PATH (dir +:+ String "/" base) = dir +:+ "/profile.pt".
Proof.
  intros Hb. unfold SAVE_PATH. rewrite rfind_last_slash by done.
  unfold py.slice_to.
  assert (String.length (dir +:+ String "/" base)
          = (String.length dir + S (String.length base))%nat) as Hlen.
  { clear. induction dir as [|a dir IH]; simpl; [done|]. by rewrite IH. }
  rewrite Hlen.
  destruct (Z.ltb_spec (Z.of_nat (String.length dir)) 0); [lia|].
  rewrite Z.min_l by lia. rewrite Nat2Z.id.
  by rewrite substring_prefix.
Qed.

(** X14: A path without ['/']: [rfind] answers [-1] and the slice drops the
    last character of the file name. *)
Lemma SAVE_PATH_without_slash path :
  has_char "/" path = false →
  SAVE_PATH path =
  substring 0 (String.length path - 1) path +:+ "/profile.pt".
Proof.
  intros Hp. unfold SAVE_PATH, py.rfind.
  rewrite rfind_from_absent by done. unfold py.slice_to. simpl.
  do 2 f_equal. lia.
Qed.

(** C7, at a checkpoint path without a directory part: the profiles are
    not written to [profile.pt] beside the checkpoint (that would be
    [profile.pt] or [./profile.pt]) but below a directory named after the
    checkpoint file less its last character. *)
Theorem SAVE_PATH_bare_file_name :
  SAVE_PATH "checkpoint_best.pt" = "checkpoint_best.p/profile.pt".
Proof. reflexivity. Qed.

End save_path.

(** ** Summation of logging outputs across workers *)

(** C8: [logging_outputs_can_be_summed] answers [False] at every call. *)
Theorem logging_outputs_cannot_be_summed :
  ∀ call : unit, logging_outputs_can_be_summed call = false.
Proof. by intros []. Qed.

(** ** Loops that may fail *)

Section loops.
Context {A St : Type} (body : St → A → option St).

Lemma foldlM_app l1 l2 s :
  foldlM body s (l1 ++ l2) = foldlM body s l1 ≫= λ s', foldlM body s' l2.
Proof.
  revert s. induction l1 as [|a l1 IH]; intros s; simpl; [done|].
  destruct (body s a) as [s'|]; simpl; [apply IH | done].
Qed.

End loops.

(** The invariant rule of a loop over [range(n)]: an invariant that holds
    at the start and is kept by every body that returns holds at the end. *)
Lemma foldlM_range_invariant {St} (body : St → nat → option St)
    (P : nat → St → Prop) n :
  (∀ i s s', (i < n)%nat → P i s → body s i = Some s' → P (S i) s') →
  ∀ s0 s, P 0%nat s0 → foldlM body s0 (seq 0 n) = Some s → P n s.
Proof.
  intros Hstep. induction n as [|n IH]; intros s0 s H0 Hrun.
  - simpl in Hrun. by simplify_eq.
  - rewrite seq_S, foldlM_app in Hrun. simpl in Hrun.
    destruct (foldlM body s0 (seq 0 n)) as [s1|] eqn:Hn; simpl in Hrun;
      [|done].
    destruct (body s1 n) as [s2|] eqn:Hb; simpl in Hrun; [|done].
    simplify_eq. apply (Hstep n s1); [lia| |done].
    eapply IH; [|done..]. intros i ? ? ?. apply Hstep. lia.
Qed.

(** The same rule for a body that cannot fail under the invariant: the loop
    then runs to its end. *)
Lemma foldlM_range_total {St} (body : St → nat → option St)
    (P : nat → St → Prop) n :
  (∀ i s, (i < n)%nat → P i s → ∃ s', body s i = Some s' ∧ P (S i) s') →
  ∀ s0, P 0%nat s0 → ∃ s, foldlM body s0 (seq 0 n) = Some s ∧ P n s.
Proof.
  intros Hstep. induction n as [|n IH]; intros s0 H0.
  - by exists s0.
  - destruct (IH (λ i s Hi, Hstep i s (Nat.lt_lt_succ_r _ _ Hi)) s0 H0)
      as (s1 & Hrun & H1).
    destruct (Hstep n s1 (Nat.lt_succ_diag_r n) H1) as (s2 & Hb & H2).
    exists s2. split; [|done].
    rewrite seq_S, foldlM_app, Hrun. simpl. by rewrite Hb.
Qed.

(** ** The collation step *)

Section collate.

Local Arguments torch.zeros2 : simpl never.
Local Arguments torch.zeros3 : simpl never.
Local Arguments torch.cat_dim1 : simpl never.
Local Arguments torch.setitem3 : simpl never.
Local Arguments torch.fill_prefix : simpl never.

Lemma zeros2_Some {A} (z : A) n m a :
  torch.zeros2 z n m = Some a →
  (0 ≤ m)%Z ∧ a = Array2 n (Z.to_nat m) (λ _ _, z).
Proof.
  unfold torch.zeros2. destruct (Z.ltb_spec m 0); [done|].
  intros [= <-]. done.
Qed.

Lemma zeros3_Some {A} (z : A) b n m t :
  torch.zeros3 z b n m = Some t →
  (0 ≤ m)%Z ∧ t = Array3 b n (Z.to_nat m) (λ _ _ _, z).
Proof.
  unfold torch.zeros3. destruct (Z.ltb_spec m 0); [done|].
  intros [= <-]. done.
Qed.

Lemma cat_dim1_Some {A} (a b c : array2 A) :
  torch.cat_dim1 a b = Some c →
  shape0 a = shape0 b ∧ shape0 c = shape0 a ∧
  shape1 c = (shape1 a + shape1 b)%nat ∧
  ∀ r k, at2 c r k = if decide (k < shape1 a)%nat then at2 a r k
                     else at2 b r (k - shape1 a).
Proof.
  unfold torch.cat_dim1. case_decide; [|done]. intros [= <-]. done.
Qed.

Lemma setitem3_Some {A B} (cast : B → A) (t t' : array3 A) i v :
  torch.setitem3 cast t i v = Some t' →
  (i < dim0 t)%nat ∧
  (shape0 v = dim1 t ∨ shape0 v = 1%nat) ∧
  (shape1 v = dim2 t ∨ shape1 v = 1%nat) ∧
  dim0 t' = dim0 t ∧ dim1 t' = dim1 t ∧ dim2 t' = dim2 t ∧
  ∀ i' r c,
    at3 t' i' r c =
    if decide (i' = i)
    then cast (at2 v (if decide (shape0 v = dim1 t) then r else 0%nat)
                     (if decide (shape1 v = dim2 t) then c else 0%nat))
    else at3 t i' r c.
Proof.
  unfold torch.setitem3, torch.broadcastable. case_decide; [|done].
  destruct (_ && _) eqn:Hb; [|done]. intros [= <-].
  apply andb_true_iff in Hb as [Hb0 Hb1].
  apply orb_true_iff in Hb0, Hb1.
  rewrite !bool_decide_eq_true in Hb0, Hb1. done.
Qed.

Lemma fill_prefix_Some {A} (t t' : array2 A) i k v :
  torch.fill_prefix t i k v = Some t' →
  (i < shape0 t)%nat ∧ shape0 t' = shape0 t ∧ shape1 t' = shape1 t ∧
  ∀ i' c, at2 t' i' c =
          if decide (i' = i ∧ c < k)%nat then v else at2 t i' c.
Proof.
  unfold torch.fill_prefix. case_decide; [|done]. intros [= <-]. done.
Qed.

Lemma collate_step_inv data max_len n_ftrs i st st' :
  (i < length data)%nat →
  collate_inv data max_len n_ftrs i st →
  collate_step data max_len st i = Some st' →
  collate_inv data max_len n_ftrs (S i) st'.
Proof.
  intros Hi (Hd0 & Hd1 & Hd2 & Hs0 & Hs1 & Hzero & Hdone) Hstep.
  destruct st as [features lengths]. unfold collate_step in Hstep.
  simpl in *.
  destruct (data !! i) as [d|] eqn:Hd; simpl in Hstep; [|done].
  destruct (torch.zeros2 _ _ _) as [pad|] eqn:Hpad; simpl in Hstep; [|done].
  destruct (torch.cat_dim1 _ _) as [row|] eqn:Hrow; simpl in Hstep; [|done].
  destruct (torch.setitem3 _ _ _ _) as [features'|] eqn:Hset;
    simpl in Hstep; [|done].
  destruct (torch.fill_prefix _ _ _ _) as [lengths'|] eqn:Hfill;
    simpl in Hstep; [|done].
  injection Hstep as <-.
  apply zeros2_Some in Hpad as [Hk ->].
  apply cat_dim1_Some in Hrow as (_ & Hr0 & Hr1 & Hrow). simpl in *.
  apply setitem3_Some in Hset
    as (_ & Hrows & _ & Hf0 & Hf1 & Hf2 & Hset).
  apply fill_prefix_Some in Hfill as (_ & Hl0 & Hl1 & Hfill).
  rewrite Hr0, Hd1 in Hrows.
  assert (shape1 row = dim2 features) as Hcols by lia.
  split_and!; simpl; try congruence.
  - intros i' c Hi'. rewrite Hfill, decide_False by lia. apply Hzero. lia.
  - intros i' d' Hi' Hd'.
    destruct (decide (i' = i)) as [->|Hne].
    + assert (d' = d) as -> by congruence.
      split_and!; [lia|done|..].
      * intros r c Hr Hc. rewrite Hset, decide_True by done.
        rewrite (decide_True _ _ Hcols), Hrow, (decide_True _ _ Hc).
        case_decide; [done|]. do 2 f_equal. lia.
      * intros r c Hc. rewrite Hset, decide_True by done.
        rewrite (decide_True _ _ Hcols), Hrow. by rewrite decide_False by lia.
      * intros c. rewrite Hfill, Hzero by done.
        destruct (decide (c < shape1 (it_x d))%nat) as [Hc|Hc];
          [by rewrite decide_True | by rewrite decide_False by tauto].
    + destruct (Hdone i' d' ltac:(lia) Hd') as (? & ? & Hcopy & Hpad & Hmask).
      split_and!; try done.
      * intros r c Hr Hc. rewrite Hset, decide_False by done. by apply Hcopy.
      * intros r c Hc. rewrite Hset, decide_False by done. by apply Hpad.
      * intros c. rewrite Hfill, decide_False by lia. apply Hmask.
Qed.

(** What a successful call of [collate_fn] returns. *)
Lemma collate_fn_inv data ids features labels lengths :
  collate_fn data = Some (ids, features, labels, lengths) →
  ∃ d0 max_len,
    data !! 0%nat = Some d0 ∧
    py_max (it_len <$> data) = Some max_len ∧ (0 ≤ max_len)%Z ∧
    ids = it_id <$> data ∧ labels = it_label <$> data ∧
    collate_inv data max_len (shape0 (it_x d0)) (length data)
                (features, lengths).
Proof.
  unfold collate_fn. intros Hrun.
  destruct (py_max (it_len <$> data)) as [max_len|]; simpl in Hrun; [|done].
  destruct (data !! 0%nat) as [d0|]; simpl in Hrun; [|done].
  destruct (torch.zeros3 _ _ _ _) as [f0|] eqn:Hf0; simpl in Hrun; [|done].
  destruct (torch.zeros2 _ _ _) as [l0|] eqn:Hl0; simpl in Hrun; [|done].
  destruct (foldlM _ _ _) as [[f l']|] eqn:Hloop; simpl in Hrun; [|done].
  apply zeros3_Some in Hf0 as [Hm ->]. apply zeros2_Some in Hl0 as [_ ->].
  simplify_eq. exists d0, max_len. split_and!; try done.
  eapply (foldlM_range_invariant _
            (collate_inv data max_len (shape0 (it_x d0))));
    [| |exact Hloop].
  - intros i s s' Hi Hinv Hstep. by eapply collate_step_inv.
  - split_and!; simpl; try done. intros; lia.
Qed.

(** C3, as amended: in a batch whose examples all have the row count of
    the first, every entry of every example is found at its position of
    the padded features, converted to float32 (rounded to the nearest
    binary32 value, when it is in range), and so unchanged when it is a
    binary32 value; every position from the example's length up to the
    padded length is zero, and the mask is one exactly at the positions
    below the example's length. *)
Theorem collate_fn_pads_and_masks data d0 ids features labels lengths :
  data !! 0%nat = Some d0 →
  Forall (λ d, shape0 (it_x d) = shape0 (it_x d0)) data →
  collate_fn data = Some (ids, features, labels, lengths) →
  dim0 features = length data ∧
  dim1 features = shape0 (it_x d0) ∧
  shape0 lengths = length data ∧
  shape1 lengths = dim2 features ∧
  ∀ i d, data !! i = Some d →
    (∀ r c, (r < shape0 (it_x d))%nat → (c < shape1 (it_x d))%nat →
            (r < dim1 features)%nat ∧ (c < dim2 features)%nat ∧
            (f32.in_range (at2 (it_x d) r c) →
             at3 features i r c = f32.round (at2 (it_x d) r c)) ∧
            (f32.representable (at2 (it_x d) r c) →
             at3 features i r c = at2 (it_x d) r c)) ∧
    (∀ r c, (r < dim1 features)%nat →
            (shape1 (it_x d) ≤ c < dim2 features)%nat →
            at3 features i r c = 0) ∧
    (∀ c, (c < shape1 lengths)%nat →
          at2 lengths i c =
          if decide (c < shape1 (it_x d))%nat then 1%Z else 0%Z).
Proof.
  intros Hd0 Hrows Hrun.
  apply collate_fn_inv in Hrun
    as (d0' & max_len & Hd0' & _ & Hmax & _ & _ & Hinv).
  assert (d0' = d0) as -> by congruence.
  destruct Hinv as (Hf0 & Hf1 & Hf2 & Hl0 & Hl1 & _ & Hdone).
  simpl in *. split_and!; [done|done|done|congruence|].
  intros i d Hd.
  destruct (Hdone i d) as (Hk & _ & Hcopy & Hpad & Hmask);
    [by eapply lookup_lt_Some|done|].
  pose proof (Forall_lookup_1 _ _ _ _ Hrows Hd) as Hrow. simpl in Hrow.
  split_and!.
  - intros r c Hr Hc. split_and!; [lia|lia|intros _; by apply Hcopy|].
    intros [Hrep _]. rewrite Hcopy by done. exact Hrep.
  - intros r c _ [Hc _]. by apply Hpad.
  - intros c _. apply Hmask.
Qed.

Lemma foldl_Zmax_of_nat ns n :
  foldl Z.max (Z.of_nat n) (Z.of_nat <$> ns)
  = Z.of_nat (n `max` max_list ns).
Proof.
  revert n. induction ns as [|a ns IH]; intros n; simpl.
  - f_equal. lia.
  - rewrite <-Nat2Z.inj_max, IH. f_equal. lia.
Qed.

Lemma py_max_of_nat ns :
  ns ≠ [] → py_max (Z.of_nat <$> ns) = Some (Z.of_nat (max_list ns)).
Proof.
  destruct ns as [|n ns]; [done|]. intros _. simpl.
  by rewrite foldl_Zmax_of_nat.
Qed.

(** [collate_fn] runs to its end on a batch whose length entries are the
    column counts of the arrays and whose arrays have the row count of
    the first. *)
Lemma collate_fn_total data d0 :
  data !! 0%nat = Some d0 →
  Forall (λ d, it_len d = Z.of_nat (shape1 (it_x d))) data →
  Forall (λ d, shape0 (it_x d) = shape0 (it_x d0)) data →
  ∃ ids features labels lengths,
    collate_fn data = Some (ids, features, labels, lengths) ∧
    dim0 features = length data ∧
    dim1 features = shape0 (it_x d0) ∧
    dim2 features = max_list ((shape1 ∘ it_x) <$> data).
Proof.
  intros Hd0 Hlen Hrows.
  set (ns := (shape1 ∘ it_x) <$> data).
  assert (it_len <$> data = Z.of_nat <$> ns) as Hlens.
  { unfold ns. rewrite <-list_fmap_compose.
    apply Forall_fmap_ext_1. eapply Forall_impl; [exact Hlen|]. done. }
  assert (ns ≠ []) as Hne.
  { unfold ns. destruct data; [done|]. done. }
  unfold collate_fn. rewrite Hlens, py_max_of_nat by done. simpl.
  rewrite Hd0. simpl.
  unfold torch.zeros3 at 1, torch.zeros2 at 1.
  destruct (Z.ltb_spec (Z.of_nat (max_list ns)) 0); [lia|]. simpl.
  edestruct (foldlM_range_total
               (collate_step data (Z.of_nat (max_list ns)))
               (collate_inv data (Z.of_nat (max_list ns))
                            (shape0 (it_x d0))) (length data))
    as ([f l] & Hloop & Hinv); [| |rewrite Hloop].
  - intros i [f l] Hi Hinv.
    assert (∃ s', collate_step data (Z.of_nat (max_list ns)) (f, l) i
                  = Some s') as [s' Hs'];
      [|exists s'; split; [done|by eapply collate_step_inv]].
    destruct Hinv as (Hf0 & Hf1 & Hf2 & Hl0 & Hl1 & _). simpl in *.
    destruct (lookup_lt_is_Some_2 data i Hi) as [d Hd].
    unfold collate_step. rewrite Hd. simpl.
    assert (shape1 (it_x d) ≤ max_list ns)%nat as Hk.
    { apply max_list_elem_of_le. unfold ns.
      apply (list_elem_of_fmap_2 (shape1 ∘ it_x)).
      by eapply list_elem_of_lookup_2. }
    unfold torch.zeros2.
    destruct (Z.ltb_spec (Z.of_nat (max_list ns)
                          - Z.of_nat (shape1 (it_x d))) 0); [lia|].
    simpl. unfold torch.cat_dim1. simpl.
    rewrite decide_True by done. simpl.
    unfold torch.setitem3, torch.broadcastable. simpl.
    rewrite decide_True by lia.
    assert (shape0 (it_x d) = dim1 f) as ->.
    { rewrite Hf1. by eapply (Forall_lookup_1 _ _ _ _ Hrows). }
    rewrite (bool_decide_eq_true_2 (dim1 f = dim1 f)) by done.
    rewrite (bool_decide_eq_true_2 (_ = dim2 f)) by lia.
    simpl. unfold torch.fill_prefix. rewrite decide_True by lia.
    simpl. eauto.
  - split_and!; simpl; try done. intros; lia.
  - simpl. eexists _, _, _, _. split; [done|].
    destruct Hinv as (Hf0 & Hf1 & Hf2 & _). simpl in *.
    split_and!; [done|done|lia].
Qed.

Lemma getitem_len ds i d :
  getitem ds i = Some d → it_len d = Z.of_nat (shape1 (it_x d)).
Proof.
  unfold getitem. intros H.
  destruct (ds_ids ds !! i); simpl in H; [|done].
  destruct (ds_data ds !! i); simpl in H; [|done].
  destruct (ds_targets ds !! i); simpl in H; [|done].
  by simplify_eq.
Qed.

(** C10: on a non-empty batch of elements of the dataset in which every
    array has the row count of the first, [collate_fn] runs to its end
    and the features have the shape (batch size, that row count, greatest
    example length). *)
Theorem collate_fn_succeeds_on_uniform_rows ds idxs data d0 :
  mapM (getitem ds) idxs = Some data →
  data !! 0%nat = Some d0 →
  Forall (λ d, shape0 (it_x d) = shape0 (it_x d0)) data →
  ∃ ids features labels lengths,
    collate_fn data = Some (ids, features, labels, lengths) ∧
    dim0 features = length data ∧
    dim1 features = shape0 (it_x d0) ∧
    dim2 features = max_list ((shape1 ∘ it_x) <$> data).
Proof.
  intros Hitems Hd0 Hrows. apply collate_fn_total; [done| |done].
  apply mapM_Some in Hitems. clear -Hitems.
  induction Hitems as [|i d idxs data Hi _ IH]; constructor; [|done].
  by eapply getitem_len.
Qed.

(** The batch of the two examples of [example_dataset], entry by entry. *)
Example collate_fn_example_batch :
  (λ '(ids, features, labels, lengths),
     (ids, planes_of features, labels, rows_of lengths))
    <$> collate_fn example_batch
  = Some (["a"; "b"],
          [ [[QZ 1; QZ 2; 0]; [QZ 3; QZ 4; 0]];
            [[QZ 5; QZ 6; QZ 7]; [QZ 8; QZ 9; QZ 10]] ],
          [0%Z; 1%Z],
          [ [1%Z; 1%Z; 0%Z]; [1%Z; 1%Z; 1%Z] ]).
Proof. by_evaluation. Qed.

Lemma collate_fn_pads_and_masks_witness :
  ∃ ids features labels lengths,
    collate_fn example_batch = Some (ids, features, labels, lengths) ∧
    dim0 features = 2%nat ∧
    at3 features 0 1 1 = QZ 4 ∧
    at3 features 0 1 2 = 0 ∧
    at2 lengths 0 1 = 1%Z ∧
    at2 lengths 0 2 = 0%Z.
Proof.
  destruct (example_batch !! 0%nat) as [d0|] eqn:Hd0; [|discriminate Hd0].
  assert (Forall (λ d, shape0 (it_x d) = shape0 (it_x d0)) example_batch)
    as Hrows by (injection Hd0 as <-; by repeat constructor).
  destruct (collate_fn_total example_batch d0 Hd0)
    as (ids & f & lab & l & E & _ & _ & Hf2); [by repeat constructor|done|].
  destruct (collate_fn_pads_and_masks
              example_batch d0 ids f lab l Hd0 Hrows E)
    as (Hf0 & Hf1 & Hl0 & Hl1 & Hall).
  destruct (Hall 0%nat d0 Hd0) as (Hcopy & Hpad & Hmask).
  injection Hd0 as <-.
  change (dim2 f = 3%nat) in Hf2.
  exists ids, f, lab, l. split_and!; [done|done|..].
  - destruct (Hcopy 1%nat 1%nat) as (_ & _ & _ & Hsame); [simpl; lia..|].
    apply Hsame. by_evaluation.
  - apply (Hpad 1%nat 2%nat); [|simpl; lia].
    destruct (Hcopy 1%nat 1%nat) as [? _]; simpl; lia.
  - apply (Hmask 1%nat). rewrite Hl1. lia.
  - apply (Hmask 2%nat). rewrite Hl1. lia.
Defined.

(** C3 as stated fails on [wide_batch]: the call returns, and the entry
    16777217 of the array, which float32 does not have, is found as
    16777216 in the features. *)
Lemma collate_fn_rounds_to_float32 :
  ∃ ids features labels lengths d,
    collate_fn wide_batch = Some (ids, features, labels, lengths) ∧
    wide_batch !! 0%nat = Some d ∧
    at2 (it_x d) 0 0 = QZ 16777217 ∧
    f32.in_range (at2 (it_x d) 0 0) ∧
    at3 features 0 0 0 = QZ 16777216 ∧
    at3 features 0 0 0 ≠ at2 (it_x d) 0 0.
Proof.
  assert ((λ '(ids, f, lab, l), at3 f 0 0 0) <$> collate_fn wide_batch
          = Some (QZ 16777216)) as Hentry by by_evaluation.
  destruct (collate_fn wide_batch) as [[[[ids f] lab] l]|]; [|done].
  injection Hentry as Hentry.
  eexists ids, f, lab, l, _. split; [done|]. split; [reflexivity|].
  cbn [it_x at2]. rewrite Hentry.
  split_and!; [done|by_evaluation|done|by_evaluation].
Qed.

(** It also fails on [degenerate_batch]: the call returns, its features
    have no row, and the entry (0, 0) of the second example has no
    position in them. *)
Lemma collate_fn_degenerate_batch :
  ∃ ids features labels lengths d,
    collate_fn degenerate_batch = Some (ids, features, labels, lengths) ∧
    degenerate_batch !! 1%nat = Some d ∧
    (0 < shape0 (it_x d))%nat ∧ (0 < shape1 (it_x d))%nat ∧
    ¬ (0 < dim1 features)%nat.
Proof.
  assert ((λ '(ids, f, lab, l), dim1 f) <$> collate_fn degenerate_batch
          = Some 0%nat) as Hrows by (vm_compute; reflexivity).
  destruct (collate_fn degenerate_batch) as [[[[ids f] lab] l]|]; [|done].
  injection Hrows as Hrows.
  eexists ids, f, lab, l, _. split; [done|]. split; [reflexivity|].
  rewrite Hrows. simpl. lia.
Qed.

(** And on [one_row_batch], whose first example has two rows and whose
    second has one: the call returns, and the one row of the second
    example is found in both rows of its plane, where no position of the
    example is zero-padded. *)
Lemma collate_fn_broadcasts_one_row :
  (λ '(ids, features, labels, lengths), planes_of features)
    <$> collate_fn one_row_batch
  = Some [ [[QZ 1; QZ 2]; [QZ 3; QZ 4]];
           [[QZ 9; 0]; [QZ 9; 0]] ].
Proof. by_evaluation. Qed.

Lemma collate_fn_succeeds_on_uniform_rows_witness :
  ∃ ids features labels lengths,
    collate_fn example_batch = Some (ids, features, labels, lengths) ∧
    dim0 features = 2%nat ∧ dim1 features = 2%nat ∧ dim2 features = 3%nat.
Proof.
  destruct (example_batch !! 0%nat) as [d0|] eqn:Hd0; [|discriminate Hd0].
  destruct (collate_fn_succeeds_on_uniform_rows
              example_dataset [0%nat; 1%nat] example_batch d0)
    as (ids & f & lab & l & E & Hf0 & Hf1 & Hf2).
  - reflexivity.
  - exact Hd0.
  - injection Hd0 as <-. by repeat constructor.
  - injection Hd0 as <-. exists ids, f, lab, l. done.
Defined.

End collate.


(** ** The profiles *)

Section profiles.
Context `{TorchMean}.

Implicit Types (obs : list (string * tensor)) (id key : string).
Implicit Types (es : list tensor).

Lemma dict_get_append_eq {V} (d : dict (list V)) key x :
  dict_get (dict_append d key x) key
  = Some (default [] (dict_get d key) ++ [x]).
Proof.
  induction d as [|[k vs] d IH]; simpl.
  - by rewrite decide_True.
  - destruct (decide (k = key)) as [->|Hne]; simpl.
    + by rewrite decide_True.
    + by rewrite decide_False.
Qed.

Lemma dict_get_append_ne {V} (d : dict (list V)) key key' x :
  key ≠ key' → dict_get (dict_append d key x) key' = dict_get d key'.
Proof.
  intros Hne. induction d as [|[k vs] d IH]; simpl.
  - by rewrite decide_False.
  - destruct (decide (k = key)) as [->|Hk]; simpl.
    + by rewrite !decide_False.
    + by rewrite IH.
Qed.

Lemma embeddings_for_cons id o obs :
  embeddings_for id (o :: obs)
  = if decide (o.1 = id) then o.2 :: embeddings_for id obs
    else embeddings_for id obs.
Proof.
  unfold embeddings_for. rewrite filter_cons. by case_decide.
Qed.

(** What the loop has accumulated for an identifier, from any dictionary. *)
Lemma accumulate_from_lookup (d : dict (list tensor)) obs id :
  dict_get (foldl (λ profiles o, dict_append profiles o.1 o.2) d obs) id
  = match dict_get d id, embeddings_for id obs with
    | None, [] => None
    | o, es => Some (default [] o ++ es)
    end.
Proof.
  revert d. induction obs as [|o obs IH]; intros d; simpl.
  - destruct (dict_get d id); simpl; [by rewrite app_nil_r | done].
  - rewrite IH, embeddings_for_cons.
    destruct (decide (o.1 = id)) as [<-|Hne].
    + rewrite dict_get_append_eq. simpl. rewrite <-app_assoc. simpl.
      by destruct (dict_get d o.1).
    + by rewrite dict_get_append_ne.
Qed.

(** An identifier is a key exactly when it was observed, and its list is
    the list of its embeddings in the order of observation. *)
Lemma accumulate_lookup obs id :
  dict_get (accumulate obs) id
  = match embeddings_for id obs with
    | [] => None
    | es => Some es
    end.
Proof. unfold accumulate. by rewrite accumulate_from_lookup. Qed.

Lemma dict_append_keys {V} (d : dict (list V)) key x :
  (dict_append d key x).*1
  = if decide (key ∈ d.*1) then d.*1 else d.*1 ++ [key].
Proof.
  induction d as [|[k vs] d IH]; [done|].
  cbn [dict_append]. rewrite (fmap_cons fst (k, vs) d). cbn [fst].
  destruct (decide (k = key)) as [->|Hne].
  - rewrite decide_True; [done|]. apply elem_of_cons. by left.
  - rewrite fmap_cons, IH. cbn [fst].
    destruct (decide (key ∈ d.*1)) as [Hin|Hnin].
    + rewrite decide_True; [done|]. apply elem_of_cons. by right.
    + rewrite decide_False; [done|].
      intros [?|?]%elem_of_cons; congruence.
Qed.

(** The keys of the dictionary stay distinct. *)
Lemma accumulate_keys_NoDup obs : NoDup (accumulate obs).*1.
Proof.
  unfold accumulate. generalize (NoDup_nil_2 (A:=string)).
  change (@nil string) with ((@nil (string * list tensor)).*1).
  generalize (@nil (string * list tensor)).
  induction obs as [|o obs IH]; intros d Hd; simpl; [done|].
  apply IH. rewrite dict_append_keys. case_decide as Hin; [done|].
  apply NoDup_app. split_and!; [done| |apply NoDup_singleton].
  intros k Hk ->%list_elem_of_singleton. done.
Qed.

Lemma dict_get_elem_of {V} (d : dict V) key v :
  NoDup d.*1 → (key, v) ∈ d → dict_get d key = Some v.
Proof.
  induction d as [|[k v'] d IH]; simpl; intros Hnd Hin.
  - by apply elem_of_nil in Hin.
  - apply NoDup_cons in Hnd as [Hk Hnd].
    apply elem_of_cons in Hin as [[= <- <-]|Hin].
    + by rewrite decide_True.
    + rewrite decide_False; [by apply IH|].
      intros ->. apply Hk. apply list_elem_of_fmap. by exists (key, v).
Qed.

(** Every entry holds the embeddings of its key. *)
Lemma accumulate_entries obs key es :
  (key, es) ∈ accumulate obs → es = embeddings_for key obs ∧ es ≠ [].
Proof.
  intros Hin.
  apply dict_get_elem_of in Hin; [|apply accumulate_keys_NoDup].
  rewrite accumulate_lookup in Hin.
  destruct (embeddings_for key obs); by simplify_eq.
Qed.

(** The final loop maps [mean_stack] over the entries, in their order. *)
Lemma finalize_from (d : dict (list tensor)) printed count out :
  foldlM (λ '(printed, count, out) '(key, val),
            m ← mean_stack val;
            Some (printed ++ [(key, length val)],
                  (count + length val)%nat,
                  out ++ [(key, m)]))
         (printed, count, out) d
  = ms ← mapM (λ kv, m ← mean_stack kv.2; Some (kv.1, m)) d;
    Some (printed ++ ((λ kv, (kv.1, length kv.2)) <$> d),
          (count + sum_list (length ∘ snd <$> d))%nat,
          out ++ ms).
Proof.
  revert printed count out.
  induction d as [|[k vs] d IH]; intros printed count out; simpl.
  - by rewrite !app_nil_r, Nat.add_0_r.
  - destruct (mean_stack vs) as [m|]; simpl; [|done].
    rewrite IH.
    destruct (mapM _ d) as [ms|]; simpl; [|done].
    by rewrite <-!app_assoc, Nat.add_assoc.
Qed.

Lemma stored_profiles_mapM obs :
  stored_profiles obs
  = mapM (λ kv, m ← mean_stack kv.2; Some (kv.1, m)) (accumulate obs).
Proof.
  unfold stored_profiles, finalize. rewrite finalize_from.
  by destruct (mapM _ _).
Qed.

Lemma mapM_mean_lookup (d : dict (list tensor)) (fin : dict tensor) id :
  mapM (λ kv, m ← mean_stack kv.2; Some (kv.1, m)) d = Some fin →
  dict_get fin id = dict_get d id ≫= mean_stack.
Proof.
  intros Hm%mapM_Some.
  induction Hm as [|[k vs] [k' m] d fin Hkv _ IH]; [done|]. simpl in *.
  destruct (mean_stack vs) as [m'|] eqn:Hvs; simplify_eq/=.
  by case_decide.
Qed.

(** The stored profile of an identifier is the mean of its embeddings, and
    an identifier that was not observed has none. *)
Lemma stored_profiles_lookup obs fin id :
  stored_profiles obs = Some fin →
  dict_get fin id
  = match embeddings_for id obs with
    | [] => None
    | es => mean_stack es
    end.
Proof.
  rewrite stored_profiles_mapM. intros Hm.
  rewrite (mapM_mean_lookup _ _ _ Hm), accumulate_lookup.
  by destruct (embeddings_for id obs).
Qed.

(** The pass ends without error exactly when the embeddings of every
    observed identifier have a mean. *)
Lemma stored_profiles_is_Some obs :
  is_Some (stored_profiles obs) ↔
  ∀ id, embeddings_for id obs ≠ [] → is_Some (mean_stack (embeddings_for id obs)).
Proof.
  rewrite stored_profiles_mapM, mapM_is_Some, Forall_forall. split.
  - intros Hall id Hne.
    specialize (Hall (id, embeddings_for id obs)). simpl in Hall.
    destruct (mean_stack _); [done|]. exfalso.
    assert (is_Some (@None (string * tensor))) as [? ?]; [|done].
    apply Hall. pose proof (accumulate_lookup obs id) as Hl.
    destruct (embeddings_for id obs) as [|e es] eqn:He; [done|].
    clear -Hl. induction (accumulate obs) as [|[k vs] d IH]; [done|].
    simpl in Hl. case_decide; simplify_eq; [by left|right; by apply IH].
  - intros Hall [k vs] Hin. simpl.
    apply accumulate_entries in Hin as [-> Hne].
    by destruct (Hall k Hne) as [m ->].
Qed.

Lemma qsum_permutation (l l' : list Qc) : l ≡ₚ l' → qsum l = qsum l'.
Proof.
  unfold qsum. apply (foldr_permutation_proper (=) Qcplus 0).
  intros a1 a2 b. ring.
Qed.

Lemma chunks_concat k (blocks : list (list Qc)) :
  Forall (λ b, length b = k) blocks →
  chunks (length blocks) k (concat blocks) = blocks.
Proof.
  induction 1 as [|b blocks Hb _ IH]; simpl; [done|].
  by rewrite take_app_length', drop_app_length', IH.
Qed.

Lemma fmap_lookup_seq (l : list Qc) :
  (λ i, default 0 (l !! i)) <$> seq 0 (length l) = l.
Proof.
  apply list_eq. intros i. rewrite list_lookup_fmap.
  destruct (decide (i < length l)%nat) as [Hi|Hi].
  - rewrite lookup_seq_lt by done. simpl.
    by destruct (lookup_lt_is_Some_2 l i Hi) as [x ->].
  - rewrite lookup_seq_ge by lia. simpl. symmetry.
    apply lookup_ge_None. lia.
Qed.

(** On well-formed tensors of one shape, [torch.mean(torch.stack(val),
    dim=0)] is the float32 mean in the order of the list. *)
Lemma mean_stack_same_shape e0 es :
  Forall tensor_wf (e0 :: es) →
  Forall (λ e, shape e = shape e0) (e0 :: es) →
  mean_stack (e0 :: es) = mean_in_order (e0 :: es).
Proof.
  intros Hwf Hsh. unfold mean_stack, torch_t.stack.
  rewrite decide_True by done. cbn [mbind option_bind].
  unfold torch_t.mean_dim0. cbn [shape data].
  rewrite decide_False by done.
  assert (Forall (λ b, length b = numel (shape e0)) (data <$> e0 :: es))
    as Hlen.
  { apply Forall_fmap. rewrite Forall_forall in Hwf, Hsh.
    apply Forall_forall. intros e He. simpl.
    rewrite <-(Hsh e He). by apply Hwf. }
  rewrite <-(length_fmap data (e0 :: es)).
  rewrite chunks_concat by done.
  cbn [mean_in_order]. do 2 f_equal.
  apply list_fmap_ext. intros _ j _. cbn beta.
  by rewrite <-list_fmap_compose.
Qed.

Lemma mean_stack_shape_mismatch e0 es :
  ¬ Forall (λ e, shape e = shape e0) (e0 :: es) →
  mean_stack (e0 :: es) = None.
Proof.
  intros Hsh. unfold mean_stack, torch_t.stack. by rewrite decide_False.
Qed.

(** [torch.mean(torch.stack(val), dim=0)] has a value exactly when [val]
    is not empty and all its tensors have one shape. *)
Lemma mean_stack_is_Some (es : list tensor) :
  is_Some (mean_stack es) ↔
  es ≠ [] ∧ ∀ e1 e2, e1 ∈ es → e2 ∈ es → shape e1 = shape e2.
Proof.
  destruct es as [|e0 es].
  { split; [by intros [? ?]|by intros [? _]]. }
  unfold mean_stack, torch_t.stack. split.
  - case_decide as Hsh; [|by intros [? ?]]. intros _. split; [done|].
    rewrite Forall_forall in Hsh. intros e1 e2 H1 H2.
    by rewrite (Hsh e1 H1), (Hsh e2 H2).
  - intros [_ Hsh]. rewrite decide_True.
    + cbn [mbind option_bind]. unfold torch_t.mean_dim0. cbn [shape data].
      rewrite decide_False by done. by eexists.
    + apply Forall_forall. intros e He. apply Hsh; [done|]. by left.
Qed.

(** Its existence does not depend on the order of the list. *)
Lemma mean_stack_is_Some_permutation es es' :
  es ≡ₚ es' → is_Some (mean_stack es) → is_Some (mean_stack es').
Proof.
  intros Hp. rewrite !mean_stack_is_Some. intros [Hne Hsh]. split.
  - intros ->. by apply Permutation_nil_r in Hp.
  - intros e1 e2 H1 H2. apply Hsh; by rewrite Hp.
Qed.

Lemma elementwise_mean_permutation es es' :
  (∃ sh, Forall (λ e, shape e = sh) es) →
  es ≡ₚ es' → elementwise_mean es = elementwise_mean es'.
Proof.
  intros [sh Hsh] Hp.
  assert (Forall (λ e, shape e = sh) es') as Hsh' by by rewrite <-Hp.
  destruct es as [|e0 es], es' as [|e0' es'];
    [done|by apply Permutation_nil_cons in Hp
         |by apply Permutation_sym, Permutation_nil_cons in Hp|].
  unfold elementwise_mean.
  rewrite (Forall_inv Hsh), (Forall_inv Hsh'), (Permutation_length Hp).
  do 2 f_equal. apply list_fmap_ext. intros _ j _. cbn beta.
  f_equal. apply qsum_permutation. by rewrite Hp.
Qed.

Lemma embeddings_for_permutation id obs obs' :
  obs ≡ₚ obs' → embeddings_for id obs ≡ₚ embeddings_for id obs'.
Proof. unfold embeddings_for. by intros ->. Qed.

Lemma Forall_filter_keep {A} (P Q : A → Prop) `{!∀ x, Decision (P x)} l :
  Forall Q l → Forall Q (filter P l).
Proof.
  rewrite !Forall_forall. intros Hl x [_ Hx]%list_elem_of_filter.
  by apply Hl.
Qed.

Lemma embeddings_for_wf id obs :
  Forall (λ o, tensor_wf o.2) obs → Forall tensor_wf (embeddings_for id obs).
Proof.
  intros Hwf. unfold embeddings_for. apply Forall_fmap.
  by apply Forall_filter_keep.
Qed.




(** The stored profile of an identifier, for well-formed embeddings: the
    float32 mean of its embeddings in the order of observation. *)
Lemma stored_profiles_mean_in_order obs fin id :
  Forall (λ o, tensor_wf o.2) obs →
  stored_profiles obs = Some fin →
  dict_get fin id = mean_in_order (embeddings_for id obs).
Proof.
  intros Hwf Hfin.
  assert (∀ id, embeddings_for id obs ≠ [] →
                is_Some (mean_stack (embeddings_for id obs))) as Hmeans.
  { apply stored_profiles_is_Some. by rewrite Hfin. }
  rewrite (stored_profiles_lookup _ _ _ Hfin).
  pose proof (embeddings_for_wf id obs Hwf) as Hes.
  specialize (Hmeans id).
  destruct (embeddings_for id obs) as [|e0 es]; [done|].
  destruct (decide (Forall (λ e, shape e = shape e0) (e0 :: es))).
  - by apply mean_stack_same_shape.
  - rewrite mean_stack_shape_mismatch in Hmeans by done.
    by destruct Hmeans.
Qed.

(** Whether the pass ends depends on the shapes of the embeddings of
    every identifier only. *)
Lemma stored_profiles_ends obs :
  is_Some (stored_profiles obs) ↔
  ∀ id e1 e2, e1 ∈ embeddings_for id obs → e2 ∈ embeddings_for id obs →
              shape e1 = shape e2.
Proof.
  rewrite stored_profiles_is_Some. split.
  - intros Hmeans id e1 e2 H1 H2.
    destruct (Hmeans id) as [m Hm].
    { intros Hnil. rewrite Hnil in H1. by apply elem_of_nil in H1. }
    by eapply (proj1 (mean_stack_is_Some _) (mk_is_Some _ _ Hm)).
  - intros Hsh id Hne. apply mean_stack_is_Some. split; [done|].
    apply Hsh.
Qed.

End profiles.

(** In exact arithmetic the mean in the order of the list is the
    elementwise mean. *)
Lemma exact_mean_in_order (es : list tensor) :
  @mean_in_order exact_mean es = elementwise_mean es.
Proof.
  destruct es as [|e0 es]; [done|].
  unfold mean_in_order, elementwise_mean. do 2 f_equal.
  apply list_fmap_ext. intros _ j _. cbn [mean32 exact_mean].
  by rewrite length_fmap.
Qed.

(** C1, as amended: at the end of the pass the profile stored for an
    identifier is the float32 mean, as the tensor runtime computes it, of
    the embeddings observed for the identifier, entry by entry and in the
    order of observation (none when it was not observed). Processing the
    observations in another order ends the pass as well and stores a
    profile for the same identifiers. In exact arithmetic the profile is
    the elementwise mean and is the same for every order. With float32
    additions the embeddings [1,1] and [3,3] of "A" give the profile
    [2,2]. *)
Theorem stored_profile_is_mean_in_observation_order `{TorchMean}
    (obs obs' : list (string * tensor)) (fin : dict tensor) :
  Forall (λ o, tensor_wf o.2) obs →
  obs ≡ₚ obs' →
  stored_profiles obs = Some fin →
  (∀ id, dict_get fin id = mean_in_order (embeddings_for id obs)) ∧
  (∃ fin', stored_profiles obs' = Some fin' ∧
           ∀ id, is_Some (dict_get fin' id) ↔ is_Some (dict_get fin id)) ∧
  (∃ fin_x fin_x',
     @stored_profiles exact_mean obs = Some fin_x ∧
     @stored_profiles exact_mean obs' = Some fin_x' ∧
     ∀ id, dict_get fin_x id = elementwise_mean (embeddings_for id obs) ∧
           dict_get fin_x' id = dict_get fin_x id) ∧
  @stored_profiles sequential_mean
     [("A", vec [QZ 1; QZ 1]); ("A", vec [QZ 3; QZ 3])]
  = Some [("A", vec [QZ 2; QZ 2])].
Proof.
  intros Hwf Hp Hfin.
  assert (Forall (λ o, tensor_wf o.2) obs') as Hwf' by by rewrite <-Hp.
  assert (∀ id e1 e2, e1 ∈ embeddings_for id obs →
            e2 ∈ embeddings_for id obs → shape e1 = shape e2) as Hsh.
  { apply stored_profiles_ends. by rewrite Hfin. }
  assert (∀ id e1 e2, e1 ∈ embeddings_for id obs' →
            e2 ∈ embeddings_for id obs' → shape e1 = shape e2) as Hsh'.
  { intros id e1 e2 H1 H2.
    apply (Hsh id); by rewrite (embeddings_for_permutation id obs obs'). }
  assert (is_Some (stored_profiles obs')) as [fin' Hfin']
    by by apply stored_profiles_ends.
  assert (is_Some (@stored_profiles exact_mean obs)) as [fin_x Hfin_x]
    by by apply stored_profiles_ends.
  assert (is_Some (@stored_profiles exact_mean obs')) as [fin_x' Hfin_x']
    by by apply stored_profiles_ends.
  split_and!.
  - intros id. by apply stored_profiles_mean_in_order.
  - exists fin'. split; [done|]. intros id.
    rewrite (stored_profiles_mean_in_order obs fin id Hwf Hfin),
            (stored_profiles_mean_in_order obs' fin' id Hwf' Hfin').
    pose proof (embeddings_for_permutation id _ _ Hp) as Hpe.
    destruct (embeddings_for id obs) as [|e0 es],
             (embeddings_for id obs') as [|e0' es']; simpl.
    + done.
    + by apply Permutation_nil_cons in Hpe.
    + by apply Permutation_sym, Permutation_nil_cons in Hpe.
    + split; by eexists.
  - exists fin_x, fin_x'. split_and!; [done|done|]. intros id.
    rewrite (stored_profiles_mean_in_order obs fin_x id Hwf Hfin_x),
            (stored_profiles_mean_in_order obs' fin_x' id Hwf' Hfin_x').
    rewrite !exact_mean_in_order. split; [done|]. symmetry.
    apply elementwise_mean_permutation;
      [|by apply embeddings_for_permutation].
    specialize (Hsh id).
    destruct (embeddings_for id obs) as [|e0 es].
    { exists []. constructor. }
    exists (shape e0). apply Forall_forall. intros e He.
    apply Hsh; [done|by left].
  - by_evaluation.
Qed.

Lemma stored_profile_is_mean_in_observation_order_witness :
  ∃ fin, @stored_profiles sequential_mean example_obs_swapped = Some fin ∧
         dict_get fin "A" = Some (vec [QZ 2; QZ 2]).
Proof.
  destruct (@stored_profiles sequential_mean example_obs_swapped)
    as [fin|] eqn:E; [|by vm_compute in E].
  destruct (@stored_profile_is_mean_in_observation_order sequential_mean
              example_obs_swapped example_obs fin)
    as (Hmean & _).
  - repeat constructor.
  - apply perm_swap.
  - exact E.
  - exists fin. split; [done|]. rewrite Hmean. by_evaluation.
Defined.

(** C1 as stated fails on [cancelling_obs] with float32 additions: the
    three embeddings are float32 vectors, their elementwise mean is 1/3,
    and the pass stores 0 for one order of the observations and the
    binary32 value nearest to 1/3 for the other. *)
Lemma stored_profile_depends_on_order :
  cancelling_obs ≡ₚ cancelling_obs_reordered ∧
  Forall (λ o, tensor_wf o.2 ∧ float32_tensor o.2) cancelling_obs ∧
  elementwise_mean (embeddings_for "A" cancelling_obs)
  = Some (vec [Q2Qc (1 # 3)]) ∧
  @stored_profiles sequential_mean cancelling_obs = Some [("A", vec [0])] ∧
  @stored_profiles sequential_mean cancelling_obs_reordered
  = Some [("A", vec [Q2Qc (11184811 # 33554432)])] ∧
  @stored_profiles sequential_mean cancelling_obs
  ≠ @stored_profiles sequential_mean cancelling_obs_reordered.
Proof.
  split_and!.
  - unfold cancelling_obs, cancelling_obs_reordered.
    apply perm_skip, perm_swap.
  - by_evaluation.
  - by_evaluation.
  - by_evaluation.
  - by_evaluation.
  - by_evaluation.
Qed.


(** ** The loss *)

Section loss.
Context `{EncoderContrastive} {I : Type}.
Implicit Types (self : CrossEntropyCriterion) (model : Model I).
Implicit Types (lprobs : matrix) (targets : list Z).

Local Arguments F.nll_loss : simpl never.

(** A term of [F.nll_loss] with the weights of the criterion is minus the
    weight of the target class times its log-probability. *)
Lemma nll_item_class_weight row t x :
  F.nll_item class_weights row t = Some x →
  x = - (class_weight t * default 0 (row !! Z.to_nat t)).
Proof.
  unfold F.nll_item, class_weight.
  destruct (decide (t = -100)%Z) as [->|_].
  - intros [= <-]. simpl. ring.
  - case_decide as Ht; [|done].
    destruct (decide (t = 0)%Z) as [->|?];
      [|destruct (decide (t = 1)%Z) as [->|?]].
    + change (Z.to_nat 0) with 0%nat. simpl.
      destruct (row !! 0%nat); simpl; [|done]. by intros [= <-].
    + change (Z.to_nat 1) with 1%nat. simpl.
      destruct (row !! 1%nat); simpl; [|done]. by intros [= <-].
    + replace (Z.to_nat t) with (S (S (Z.to_nat t - 2))) by lia. done.
Qed.

Lemma nll_items_weighted lprobs targets items :
  mapM (λ p, F.nll_item class_weights p.1 p.2) (zip lprobs targets)
  = Some items →
  items = zip_with
            (λ row t, - (class_weight t * default 0 (row !! Z.to_nat t)))
            lprobs targets.
Proof.
  revert targets items.
  induction lprobs as [|row lprobs IH]; intros [|t targets] items;
    simpl; try (by intros [= <-]).
  destruct (F.nll_item _ _ _) as [x|] eqn:Hx; simpl; [|done].
  destruct (mapM _ _) as [items'|] eqn:Hitems; simpl; [|done].
  intros [= <-]. f_equal; [by apply nll_item_class_weight | by apply IH].
Qed.

(** The summed loss of [F.nll_loss] with the weights of the criterion is
    the weighted negative log-likelihood. *)
Lemma nll_loss_weighted lprobs targets loss :
  F.nll_loss lprobs targets true class_weights = Some loss →
  length lprobs = length targets ∧
  Forall (λ row, length row = 2%nat) lprobs ∧
  loss = Num (weighted_nll lprobs targets).
Proof.
  unfold F.nll_loss. case_decide as Hlen; [|done].
  case_decide as Hrows; [|done].
  destruct (mapM _ _) as [items|] eqn:Hitems; simpl; [|done].
  intros [= <-]. split_and!; [done|done|].
  unfold weighted_nll. by rewrite (nll_items_weighted _ _ _ Hitems).
Qed.

(** It is defined whenever the batch sizes agree, the model has two classes
    and the targets are classes. *)
Lemma nll_loss_total lprobs targets :
  length lprobs = length targets →
  Forall (λ row, length row = 2%nat) lprobs →
  Forall (λ t, t = 0 ∨ t = 1)%Z targets →
  F.nll_loss lprobs targets true class_weights
  = Some (Num (weighted_nll lprobs targets)).
Proof.
  intros Hlen Hrows Htargets.
  assert (is_Some (mapM (λ p, F.nll_item class_weights p.1 p.2)
                        (zip lprobs targets))) as [items Hitems].
  { apply mapM_is_Some, Forall_forall. intros [row t] Hin. simpl.
    assert (length row = 2%nat) as Hrow.
    { rewrite Forall_forall in Hrows. apply Hrows.
      by eapply elem_of_zip_l. }
    assert (t = 0 ∨ t = 1)%Z as Ht.
    { rewrite Forall_forall in Htargets. apply Htargets.
      by eapply elem_of_zip_r. }
    destruct row as [|x0 [|x1 [|]]]; try done.
    by destruct Ht as [-> | ->]. }
  unfold F.nll_loss. rewrite !decide_True by done.
  rewrite Hitems. simpl. unfold weighted_nll.
  by rewrite (nll_items_weighted _ _ _ Hitems).
Qed.

(** C5: with the encoder-contrastive mode off, the loss that
    [compute_loss] returns is the loss of [F.nll_loss] on the normalized
    output and the targets, which for [reduce=True] is the class-weighted
    negative log-likelihood; no reconstruction or contrastive term enters:
    the result is the same for every contrastive loss. *)
Theorem compute_loss_is_classification_term self model net_output
    (s : sample I) reduce loss outputs :
  encoder_contrastive self = false →
  compute_loss self model net_output s reduce = Some (loss, outputs) →
  ∃ lprobs,
    get_normalized_probs model net_output = Some lprobs ∧
    outputs = (F.argmax <$> lprobs, get_targets model s net_output) ∧
    F.nll_loss lprobs (get_targets model s net_output) reduce class_weights
    = Some loss ∧
    (reduce = true →
     loss = Num (weighted_nll lprobs (get_targets model s net_output))) ∧
    ∀ contrastive : EncoderContrastive,
      @compute_loss contrastive I self model net_output s reduce
      = Some (loss, outputs).
Proof.
  intros Hoff. unfold compute_loss. rewrite Hoff.
  cbn [mbind option_bind].
  destruct (get_normalized_probs model net_output) as [lprobs|];
    cbn [mbind option_bind]; [|done].
  destruct (F.nll_loss _ _ _ _) as [l|] eqn:Hl;
    cbn [mbind option_bind]; [|done].
  intros [= <- <-]. exists lprobs. split_and!; try done.
  intros ->. by apply nll_loss_weighted in Hl as (_ & _ & ->).
Qed.

(** The loss of a batch whose targets are all one class: the weight of
    the class times the negated sum of the log-probabilities that the
    examples give the class. *)
Lemma weighted_nll_one_class (lprobs : matrix) (t : Z) :
  weighted_nll lprobs (replicate (length lprobs) t)
  = class_weight t
    * qsum ((λ row, - default 0 (row !! Z.to_nat t)) <$> lprobs).
Proof.
  unfold weighted_nll. induction lprobs as [|row lprobs IH]; [simpl; ring|].
  rewrite fmap_cons. cbn [length replicate zip_with].
  change (qsum (?x :: ?l)) with (x + qsum l). rewrite IH. ring.
Qed.

Lemma Qcmult_7_inj (a b : Qc) : QZ 7 * a = QZ 7 * b ↔ a = b.
Proof.
  split; [|by intros ->]. intros Heq.
  assert (QZ 7 * (a - b) = 0) as Hz.
  { transitivity (QZ 7 * a - QZ 7 * b); [ring|]. rewrite Heq. ring. }
  apply Qcmult_integral in Hz as [Hz|Hz]; [done|].
  rewrite <-(Qcplus_0_l b), <-Hz. ring.
Qed.

(** C2, as amended: with the mode off and [reduce=True], the loss of a
    batch whose targets are all class 1 is 7 times the negated sum of the
    log-probabilities that its examples give class 1, and the loss of a
    batch whose targets are all class 0 is the negated sum of the
    log-probabilities that its examples give class 0, in exact
    arithmetic. The first loss is 7 times the second exactly when the two
    sums are equal, as they are when, example by example, the
    log-probability of class 1 in the first batch is that of class 0 in
    the second. *)
Theorem minority_loss_is_7_times_majority_loss self model outA outB
    (sA sB : sample I) lprobsA lprobsB :
  encoder_contrastive self = false →
  get_normalized_probs model outA = Some lprobsA →
  get_normalized_probs model outB = Some lprobsB →
  Forall (λ row, length row = 2%nat) lprobsA →
  Forall (λ row, length row = 2%nat) lprobsB →
  get_targets model sA outA = replicate (length lprobsA) 1%Z →
  get_targets model sB outB = replicate (length lprobsB) 0%Z →
  ∃ lossA lossB outsA outsB,
    compute_loss self model outA sA true = Some (Num lossA, outsA) ∧
    compute_loss self model outB sB true = Some (Num lossB, outsB) ∧
    lossA = QZ 7 * qsum ((λ row, - default 0 (row !! 1%nat)) <$> lprobsA) ∧
    lossB = qsum ((λ row, - default 0 (row !! 0%nat)) <$> lprobsB) ∧
    (lossA = QZ 7 * lossB ↔
     qsum ((λ row, - default 0 (row !! 1%nat)) <$> lprobsA)
     = qsum ((λ row, - default 0 (row !! 0%nat)) <$> lprobsB)) ∧
    (Forall2 (λ ra rb, ra !! 1%nat = rb !! 0%nat) lprobsA lprobsB →
     lossA = QZ 7 * lossB).
Proof.
  intros Hoff HA HB HrowsA HrowsB HtA HtB.
  exists (weighted_nll lprobsA (replicate (length lprobsA) 1%Z)),
         (weighted_nll lprobsB (replicate (length lprobsB) 0%Z)).
  eexists _, _. unfold compute_loss. rewrite Hoff.
  cbn [mbind option_bind]. rewrite HA, HB, HtA, HtB.
  cbn [mbind option_bind].
  rewrite !nll_loss_total;
    [|by rewrite ?length_replicate|done
     |apply Forall_replicate; by left
     |by rewrite ?length_replicate|done
     |apply Forall_replicate; by right].
  cbn [mbind option_bind]. rewrite !weighted_nll_one_class.
  change (Z.to_nat 1) with 1%nat. change (Z.to_nat 0) with 0%nat.
  change (class_weight 1) with (QZ 7). change (class_weight 0) with (QZ 1).
  rewrite Z2Qc_inj_1, Qcmult_1_l.
  split_and!; [done|done|done|done|apply Qcmult_7_inj|].
  intros Hcols. apply Qcmult_7_inj. f_equal.
  clear -Hcols. induction Hcols as [|ra rb lA lB Hab _ IH]; [done|].
  rewrite !fmap_cons. by rewrite Hab, IH.
Qed.

(** C2 as stated fails when the model gives the two batches the same
    output: on the log-probabilities (-1, -2) and (-3, -1) the loss of
    the targets (1, 1) is 21 and the loss of the targets (0, 0) is 4. *)
Lemma same_output_loss_ratio_is_not_7 :
  ∃ outsA outsB,
    @compute_loss example_contrastive unit example_criterion
       (example_model [[- QZ 1; - QZ 2]; [- QZ 3; - QZ 1]])
       (Logits [[- QZ 1; - QZ 2]; [- QZ 3; - QZ 1]])
       (Sample () [1%Z; 1%Z] 2) true
    = Some (Num (QZ 21), outsA) ∧
    @compute_loss example_contrastive unit example_criterion
       (example_model [[- QZ 1; - QZ 2]; [- QZ 3; - QZ 1]])
       (Logits [[- QZ 1; - QZ 2]; [- QZ 3; - QZ 1]])
       (Sample () [0%Z; 0%Z] 2) true
    = Some (Num (QZ 4), outsB) ∧
    QZ 21 ≠ QZ 7 * QZ 4.
Proof.
  assert (fst <$> @compute_loss example_contrastive unit example_criterion
                    (example_model [[- QZ 1; - QZ 2]; [- QZ 3; - QZ 1]])
                    (Logits [[- QZ 1; - QZ 2]; [- QZ 3; - QZ 1]])
                    (Sample () [1%Z; 1%Z] 2) true
          = Some (Num (QZ 21))) as HA by by_evaluation.
  assert (fst <$> @compute_loss example_contrastive unit example_criterion
                    (example_model [[- QZ 1; - QZ 2]; [- QZ 3; - QZ 1]])
                    (Logits [[- QZ 1; - QZ 2]; [- QZ 3; - QZ 1]])
                    (Sample () [0%Z; 0%Z] 2) true
          = Some (Num (QZ 4))) as HB by by_evaluation.
  destruct (@compute_loss _ _ _ _ _ (Sample () [1%Z; 1%Z] 2) _)
    as [[lossA outsA]|]; [|done].
  destruct (@compute_loss _ _ _ _ _ (Sample () [0%Z; 0%Z] 2) _)
    as [[lossB outsB]|]; [|done].
  injection HA as ->. injection HB as ->.
  exists outsA, outsB. split_and!; [done|done|by_evaluation].
Qed.

End loss.

Lemma compute_loss_is_classification_term_witness :
  ∃ outputs,
    @compute_loss example_contrastive unit example_criterion
       (example_model [[- QZ 1; - QZ 2]; [- QZ 3; - QZ 1]])
       (Logits [[- QZ 1; - QZ 2]; [- QZ 3; - QZ 1]])
       (Sample () [0%Z; 1%Z] 2) true
    = Some (Num (QZ 8), outputs).
Proof.
  destruct (@compute_loss example_contrastive unit example_criterion
              (example_model [[- QZ 1; - QZ 2]; [- QZ 3; - QZ 1]])
              (Logits [[- QZ 1; - QZ 2]; [- QZ 3; - QZ 1]])
              (Sample () [0%Z; 1%Z] 2) true)
    as [[loss outputs]|] eqn:E; [|by vm_compute in E].
  destruct (@compute_loss_is_classification_term example_contrastive unit
              example_criterion
              (example_model [[- QZ 1; - QZ 2]; [- QZ 3; - QZ 1]])
              (Logits [[- QZ 1; - QZ 2]; [- QZ 3; - QZ 1]])
              (Sample () [0%Z; 1%Z] 2) true loss outputs eq_refl E)
    as (lprobs & Hl & _ & _ & Hloss & _).
  injection Hl as <-. exists outputs. rewrite (Hloss eq_refl).
  do 2 f_equal. by_evaluation.
Defined.

Lemma minority_loss_is_7_times_majority_loss_witness :
  ∃ lossB outsA outsB,
    @compute_loss example_contrastive unit example_criterion
       (example_model [[- QZ 1; - QZ 1]; [- QZ 2; - QZ 2]])
       (Logits [[- QZ 1; - QZ 1]; [- QZ 2; - QZ 2]])
       (Sample () [1%Z; 1%Z] 2) true
    = Some (Num (QZ 7 * lossB), outsA) ∧
    @compute_loss example_contrastive unit example_criterion
       (example_model [[- QZ 1; - QZ 1]; [- QZ 2; - QZ 2]])
       (Logits [[- QZ 1; - QZ 1]; [- QZ 2; - QZ 2]])
       (Sample () [0%Z; 0%Z] 2) true
    = Some (Num lossB, outsB).
Proof.
  destruct (@minority_loss_is_7_times_majority_loss example_contrastive unit
              example_criterion
              (example_model [[- QZ 1; - QZ 1]; [- QZ 2; - QZ 2]])
              (Logits [[- QZ 1; - QZ 1]; [- QZ 2; - QZ 2]])
              (Logits [[- QZ 1; - QZ 1]; [- QZ 2; - QZ 2]])
              (Sample () [1%Z; 1%Z] 2) (Sample () [0%Z; 0%Z] 2)
              [[- QZ 1; - QZ 1]; [- QZ 2; - QZ 2]]
              [[- QZ 1; - QZ 1]; [- QZ 2; - QZ 2]])
    as (lossA & lossB & outsA & outsB & HA & HB & _ & _ & _ & Hratio).
  - reflexivity.
  - reflexivity.
  - reflexivity.
  - by repeat constructor.
  - by repeat constructor.
  - reflexivity.
  - reflexivity.
  - exists lossB, outsA, outsB. rewrite <-Hratio; [done|].
    by repeat constructor.
Defined.


(** ** The logging output of [forward] *)

Section forward_props.
Context `{Math} `{EncoderContrastive} {I : Type}.
Implicit Types (self : CrossEntropyCriterion) (model : Model I).

Lemma nll_loss_length input targets reduction weight loss :
  F.nll_loss input targets reduction weight = Some loss →
  length input = length targets.
Proof. unfold F.nll_loss. by case_decide. Qed.

(** [forward] returns only with the mode off and a tensor for the output
    of the model; the loss is then computed on that tensor. *)
Lemma forward_inv self model (s : sample I) reduce loss sample_size log :
  forward self model s reduce = Some (loss, sample_size, log) →
  ∃ t lprobs predicts,
    model_call model (net_input s) = Logits t ∧
    get_normalized_probs model (Logits t) = Some lprobs ∧
    length lprobs = length (get_targets model s (Logits t)) ∧
    length predicts = length t ∧
    log !! "predicts" = Some (Lst predicts) ∧
    log !! "targets" = Some (Lst (QZ <$> get_targets model s (Logits t))) ∧
    log !! "nsentences" = Some (Num (Qnat (length (target s)))).
Proof.
  unfold forward.
  destruct (compute_loss _ _ _ _ _) as [[loss' [preds tgt]]|] eqn:Hc;
    cbn [mbind option_bind]; [|done].
  destruct (model_call model (net_input s)) as [t|] eqn:Hout;
    cbn [F.softmax mbind option_bind]; [|done].
  unfold compute_loss in Hc.
  destruct (encoder_contrastive self); cbn [mbind option_bind] in Hc;
    [done|].
  destruct (get_normalized_probs model (Logits t)) as [lprobs|] eqn:Hl;
    cbn [mbind option_bind] in Hc; [|done].
  destruct (F.nll_loss _ _ _ _) as [l|] eqn:Hnll;
    cbn [mbind option_bind] in Hc; [|done].
  injection Hc as <- <- <-. apply nll_loss_length in Hnll.
  match goal with
  | |- context [if ?c then ?a else ?b] =>
      destruct (if c then a else b) as [predicts|] eqn:Hp
  end; cbn [mbind option_bind]; [|done].
  intros [= <- <- <-]. exists t, lprobs, predicts.
  split_and!; try done.
  case_decide as Hone.
  - rewrite length_fmap in Hone. rewrite Hone.
    destruct ((F.softmax_row <$> t) !! 0%nat) as [row|];
      cbn [mbind option_bind] in Hp; [|done].
    destruct (row !! 1%nat); cbn [mbind option_bind] in Hp; [|done].
    by injection Hp as <-.
  - apply length_mapM in Hp. by rewrite <-Hp, length_fmap.
Qed.

Lemma softmax_row_length (row : list Qc) :
  length (F.softmax_row row) = length row.
Proof. unfold F.softmax_row. by rewrite !length_fmap. Qed.

(** [forward] returns, for [reduce=True], on a batch of classes 0 and 1
    and a model of two classes that keeps the batch size. *)
Lemma forward_total self model (s : sample I) t lprobs :
  encoder_contrastive self = false →
  model_call model (net_input s) = Logits t →
  get_normalized_probs model (Logits t) = Some lprobs →
  get_targets model s (Logits t) = target s →
  length lprobs = length (target s) →
  Forall (λ row, length row = 2%nat) lprobs →
  Forall (λ row, length row = 2%nat) t →
  Forall (λ c, c = 0 ∨ c = 1)%Z (target s) →
  is_Some (forward self model s true).
Proof.
  intros Hoff Hout Hl Ht Hlen Hrows Hcols Hclasses.
  unfold forward, compute_loss. rewrite Hout, Hoff.
  cbn [mbind option_bind]. rewrite Hl. cbn [mbind option_bind].
  rewrite Ht, nll_loss_total by done.
  cbn [mbind option_bind F.softmax].
  assert (Forall (λ row : list Qc, is_Some (row !! 1%nat))
                 (F.softmax_row <$> t)) as Hp.
  { apply Forall_fmap. eapply Forall_impl; [exact Hcols|].
    intros row Hrow. simpl in *. apply lookup_lt_is_Some.
    rewrite softmax_row_length. lia. }
  case_decide as Hone.
  - destruct (F.softmax_row <$> t) as [|row [|]]; try done.
    apply Forall_inv in Hp as [p Hp]. simpl. by rewrite Hp.
  - assert (is_Some (mapM (λ row : list Qc, row !! 1%nat)
                          (F.softmax_row <$> t))) as [predicts Hpr]
      by by apply mapM_is_Some.
    by rewrite Hpr.
Qed.

(** C9: when the model keeps the batch size in its normalized output and
    its targets are those of the sample, the lists [predicts] and
    [targets] of the logging output have the length [nsentences], the
    number of examples of the batch; the batch of one example is
    included. *)
Theorem forward_logging_lengths self model (s : sample I) reduce
    loss sample_size log :
  (∀ t lprobs, get_normalized_probs model (Logits t) = Some lprobs →
               length lprobs = length t) →
  (∀ out, get_targets model s out = target s) →
  forward self model s reduce = Some (loss, sample_size, log) →
  ∃ predicts targets,
    log !! "predicts" = Some (Lst predicts) ∧
    log !! "targets" = Some (Lst targets) ∧
    log !! "nsentences" = Some (Num (Qnat (length (target s)))) ∧
    length predicts = length (target s) ∧
    length targets = length (target s).
Proof.
  intros Hshape Htargets Hrun.
  apply forward_inv in Hrun
    as (t & lprobs & predicts & _ & Hl & Hlen & Hp & ? & ? & ?).
  rewrite Htargets in *. apply Hshape in Hl.
  exists predicts, (QZ <$> target s).
  split_and!; [done|done|done|congruence|by rewrite length_fmap].
Qed.

End forward_props.

Lemma forward_logging_lengths_witness :
  ∃ loss sample_size log predicts targets,
    @forward example_math example_contrastive unit example_criterion
       (example_model [[- QZ 1; - QZ 2]]) (Sample () [1%Z] 1) true
    = Some (loss, sample_size, log) ∧
    log !! "predicts" = Some (Lst predicts) ∧
    log !! "targets" = Some (Lst targets) ∧
    length predicts = 1%nat ∧ length targets = 1%nat.
Proof.
  destruct (@forward example_math example_contrastive unit example_criterion
              (example_model [[- QZ 1; - QZ 2]]) (Sample () [1%Z] 1) true)
    as [[[loss sample_size] log]|] eqn:E; [|by vm_compute in E].
  destruct (@forward_logging_lengths example_math example_contrastive unit
              example_criterion (example_model [[- QZ 1; - QZ 2]])
              (Sample () [1%Z] 1) true loss sample_size log)
    as (predicts & targets & Hp & Ht & _ & Hlp & Hlt).
  - intros t lprobs Hl. by injection Hl as <-.
  - intros out. reflexivity.
  - exact E.
  - by exists loss, sample_size, log, predicts, targets.
Defined.


(** ** The aggregation of the logging outputs *)

Section reduce_metrics_props.
Context `{Math}.
Implicit Types (logs : list (gmap string pyval)) (events : list metric_event).

Local Arguments py_div : simpl never.
Local Arguments py_mul : simpl never.
Local Arguments py_ne : simpl never.
Local Arguments summed : simpl never.

(** [sum] over numbers is their sum. *)
Lemma py_sum_from_nums (qs : list Qc) a :
  foldlM py_add (Num a) (Num <$> qs) = Some (Num (a + qsum qs)).
Proof.
  revert a. induction qs as [|q qs IH]; intros a; simpl.
  - do 2 f_equal. ring.
  - rewrite IH. do 2 f_equal. ring.
Qed.

(** The sum of a field that is a number in every record that has it. *)
Lemma summed_total key logs :
  Forall (λ log, ∀ v, log !! key = Some v → ∃ q, v = Num q) logs →
  summed key logs = Some (Num (total key logs)).
Proof.
  intros Hnum. unfold summed, py_sum, total.
  assert ((λ log : gmap string pyval, default (Num 0) (log !! key)) <$> logs
          = Num <$> ((λ log, match log !! key with
                             | Some (Num q) => q
                             | _ => 0
                             end) <$> logs)) as ->.
  { rewrite <-list_fmap_compose. apply Forall_fmap_ext_1.
    eapply Forall_impl; [exact Hnum|]. intros log Hlog. simpl.
    destruct (log !! key) as [v|] eqn:Hv; [|done].
    by destruct (Hlog v Hv) as [q ->]. }
  rewrite py_sum_from_nums. do 2 f_equal. ring.
Qed.

(** The calls that [reduce_metrics] makes when it returns. *)
Lemma reduce_metrics_inv logs events :
  reduce_metrics logs = Some events →
  ∃ loss_sum ntokens sample_size v differs e_ppl ncorrect nsentences acc,
    summed "loss" logs = Some loss_sum ∧
    summed "ntokens" logs = Some ntokens ∧
    summed "sample_size" logs = Some sample_size ∧
    py_ne sample_size ntokens = Some differs ∧
    (if differs : bool then
       ∃ v', py_div loss_sum ntokens
               ≫= (λ v, py_div v (Num (math_log (QZ 2)))) = Some v' ∧
             e_ppl = [LogScalar "nll_loss" v' ntokens 3;
                      LogDerived "ppl" (Perplexity "nll_loss")]
     else e_ppl = [LogDerived "ppl" (Perplexity "loss")]) ∧
    summed "ncorrect" logs = Some ncorrect ∧
    summed "nsentences" logs = Some nsentences ∧
    py_mul (Num (QZ 100)) ncorrect ≫= (λ v, py_div v nsentences) = Some acc ∧
    events = [LogScalar "loss" v sample_size 3] ++ e_ppl
             ++ [LogScalar "accuracy" acc nsentences 3].
Proof.
  unfold reduce_metrics.
  destruct (summed "loss" logs) as [loss_sum|];
    cbn [mbind option_bind]; [|done].
  destruct (summed "ntokens" logs) as [ntokens|];
    cbn [mbind option_bind]; [|done].
  destruct (summed "sample_size" logs) as [sample_size|];
    cbn [mbind option_bind]; [|done].
  destruct (py_div loss_sum sample_size) as [v0|];
    cbn [mbind option_bind]; [|done].
  destruct (py_div v0 _) as [v|]; cbn [mbind option_bind]; [|done].
  destruct (py_ne sample_size ntokens) as [differs|] eqn:Hne;
    cbn [mbind option_bind]; [|done].
  match goal with
  | |- context [if differs then ?a else ?b] =>
      destruct (if differs then a else b) as [e_ppl|] eqn:Hppl
  end; cbn [mbind option_bind]; [|done].
  destruct (summed "ncorrect" logs) as [ncorrect|];
    cbn [mbind option_bind]; [|done].
  destruct (summed "nsentences" logs) as [nsentences|];
    cbn [mbind option_bind]; [|done].
  destruct (py_mul _ ncorrect ≫= _) as [acc|] eqn:Hacc;
    cbn [mbind option_bind]; [|done].
  intros [= <-].
  exists loss_sum, ntokens, sample_size, v, differs, e_ppl, ncorrect,
         nsentences, acc.
  split_and!; try done.
  destruct differs; [|by injection Hppl as <-].
  destruct (py_div loss_sum ntokens ≫= _) as [v'|];
    cbn [mbind option_bind] in Hppl; [|done].
  injection Hppl as <-. by exists v'.
Qed.

Lemma py_div_nums a b : b ≠ 0 → py_div (Num a) (Num b) = Some (Num (a / b)).
Proof. intros Hb. unfold py_div, qdiv. simpl. by rewrite decide_False. Qed.

Lemma py_mul_nums a b : py_mul (Num a) (Num b) = Some (Num (a * b)).
Proof. done. Qed.

Lemma py_ne_nums a b :
  py_ne (Num a) (Num b) = Some (negb (bool_decide (a = b))).
Proof. done. Qed.

(** On records whose five summed fields are numbers, [reduce_metrics]
    returns when no denominator is zero, and these are its calls. *)
Lemma reduce_metrics_total logs :
  (∀ key, key ∈ ["loss"; "ntokens"; "sample_size"; "ncorrect"; "nsentences"] →
     Forall (λ log, ∀ v, log !! key = Some v → ∃ q, v = Num q) logs) →
  total "sample_size" logs ≠ 0 →
  total "nsentences" logs ≠ 0 →
  (total "sample_size" logs = total "ntokens" logs
   ∨ total "ntokens" logs ≠ 0) →
  math_log (QZ 2) ≠ 0 →
  reduce_metrics logs
  = Some ([LogScalar "loss"
             (Num (total "loss" logs / total "sample_size" logs
                   / math_log (QZ 2)))
             (Num (total "sample_size" logs)) 3]
          ++ (if decide (total "sample_size" logs = total "ntokens" logs)
              then [LogDerived "ppl" (Perplexity "loss")]
              else [LogScalar "nll_loss"
                      (Num (total "loss" logs / total "ntokens" logs
                            / math_log (QZ 2)))
                      (Num (total "ntokens" logs)) 3;
                    LogDerived "ppl" (Perplexity "nll_loss")])
          ++ [LogScalar "accuracy"
                (Num (QZ 100 * total "ncorrect" logs
                      / total "nsentences" logs))
                (Num (total "nsentences" logs)) 3]).
Proof.
  intros Hnum Hss Hns Hnt Hlog. unfold reduce_metrics.
  rewrite !summed_total
    by (apply Hnum; apply list_elem_of_In; simpl; tauto).
  cbn [mbind option_bind].
  rewrite (py_div_nums _ (total "sample_size" logs)) by done.
  cbn [mbind option_bind].
  rewrite (py_div_nums _ (math_log (QZ 2))) by done.
  rewrite py_ne_nums, py_mul_nums. cbn [mbind option_bind].
  rewrite (py_div_nums _ (total "nsentences" logs)) by done.
  case_decide as Heq.
  - by rewrite bool_decide_eq_true_2 by done.
  - rewrite bool_decide_eq_false_2 by done. cbn [negb].
    destruct Hnt as [?|Hnt]; [done|].
    rewrite (py_div_nums _ (total "ntokens" logs)) by done.
    cbn [mbind option_bind].
    by rewrite (py_div_nums _ (math_log (QZ 2))) by done.
Qed.

(** C4: over records that each have the fields [ncorrect] and
    [nsentences], the one accuracy that [reduce_metrics] logs is 100 times
    the sum of [ncorrect] divided by the sum of [nsentences], weighted by
    the latter. *)
Theorem reduce_metrics_accuracy logs events :
  Forall (λ log, ∃ c n, log !! "ncorrect" = Some (Num c) ∧
                        log !! "nsentences" = Some (Num n)) logs →
  reduce_metrics logs = Some events →
  scalars_of "accuracy" events
  = [(Num (QZ 100 * total "ncorrect" logs / total "nsentences" logs),
      Num (total "nsentences" logs))].
Proof.
  intros Hfields Hrun.
  apply reduce_metrics_inv in Hrun
    as (loss_sum & ntokens & sample_size & v & differs & e_ppl & ncorrect
        & nsentences & acc & _ & _ & _ & _ & Hppl & Hc & Hn & Hacc & ->).
  rewrite summed_total in Hc, Hn.
  - simplify_eq. unfold py_mul, py_div in Hacc. simpl in Hacc.
    unfold qdiv in Hacc. case_decide; [done|]. simpl in Hacc.
    simplify_eq.
    destruct differs; [destruct Hppl as (v' & _ & ->) | subst e_ppl]; done.
  - eapply Forall_impl; [exact Hfields|].
    intros log (c & n & _ & Hn') v' ?. exists n. congruence.
  - eapply Forall_impl; [exact Hfields|].
    intros log (c & n & Hc' & _) v' ?. exists c. congruence.
Qed.


End reduce_metrics_props.

Lemma reduce_metrics_accuracy_witness :
  ∃ events,
    @reduce_metrics example_math example_logs = Some events ∧
    scalars_of "accuracy" events = [(Num (QZ 75), Num (QZ 4))].
Proof.
  destruct (@reduce_metrics example_math example_logs)
    as [events|] eqn:E; [|by vm_compute in E].
  exists events. split; [done|].
  rewrite (@reduce_metrics_accuracy example_math example_logs events).
  - by_evaluation.
  - repeat constructor; eexists _, _; split; reflexivity.
  - exact E.
Defined.



(** * Further properties of the code *)

(** ** Loading the features *)

Section loading.
Implicit Types (fs : file_system) (X : list manifest_row).

Lemma string_app_cons a (s1 s2 : string) :
  String a s1 +:+ s2 = String a (s1 +:+ s2).
Proof. done. Qed.

Lemma string_length_app (s1 s2 : string) :
  String.length (s1 +:+ s2) = (String.length s1 + String.length s2)%nat.
Proof.
  induction s1 as [|a s1 IH]; [done|].
  rewrite string_app_cons. simpl. by rewrite IH.
Qed.

Lemma string_app_assoc (s1 s2 s3 : string) :
  (s1 +:+ s2) +:+ s3 = s1 +:+ (s2 +:+ s3).
Proof.
  induction s1 as [|a s1 IH]; [done|].
  by rewrite !string_app_cons, IH.
Qed.

Lemma string_app_empty (s : string) : s +:+ "" = s.
Proof.
  induction s as [|a s IH]; [done|]. by rewrite string_app_cons, IH.
Qed.

(** X1: For a file name that ends with an extension of [offset] characters,
    the file read is the name without the extension, in [dir_path], with the
    suffix [_mel_2048_128.npy]; [offset = 0] is the empty extension. *)
Theorem feature_file_replaces_extension dir_path name ext :
  feature_file dir_path (name +:+ ext) (Z.of_nat (String.length ext))
  = dir_path +:+ name +:+ mel_suffix.
Proof.
  unfold feature_file. case_decide as Hoff.
  - destruct ext; [|done]. by rewrite string_app_empty, string_app_assoc.
  - unfold py.slice_to.
    destruct (Z.ltb_spec (- Z.of_nat (String.length ext)) 0); [|lia].
    rewrite <-(string_app_assoc dir_path name ext), !string_length_app.
    replace (Z.to_nat _)
      with (String.length (dir_path +:+ name))
      by (rewrite string_length_app; lia).
    by rewrite substring_prefix, string_app_assoc.
Qed.

(** [load_dataset] returns exactly when the file of every row exists. *)
Lemma load_dataset_is_Some fs X dir_path offset :
  is_Some (load_dataset fs X dir_path offset) ↔
  Forall (λ r, is_Some (fs !! feature_file dir_path (row_file_path r) offset))
         X.
Proof.
  unfold load_dataset. split.
  - intros [res Hres].
    apply (mapM_is_Some_1
             (λ r, fs !! feature_file dir_path (row_file_path r) offset)).
    destruct (mapM _ X); [by eauto | done].
  - intros Hfiles.
    apply (mapM_is_Some_2
             (λ r, fs !! feature_file dir_path (row_file_path r) offset))
      in Hfiles as [feats ->].
    by eauto.
Qed.

(** What a returning [load_dataset] returns, row by row. *)
Lemma load_dataset_Some fs X dir_path offset feats labels ids :
  load_dataset fs X dir_path offset = Some (feats, labels, ids) →
  length feats = length X ∧ length labels = length X ∧
  length ids = length X ∧
  ∀ i r, X !! i = Some r →
    feats !! i = fs !! feature_file dir_path (row_file_path r) offset ∧
    is_Some (feats !! i) ∧
    labels !! i = Some (row_label r) ∧ ids !! i = Some (row_id r).
Proof.
  intros Hload. unfold load_dataset in Hload.
  destruct (mapM _ X) as [feats'|] eqn:Hfeats; simplify_eq/=.
  rewrite !length_fmap. split_and!; try done.
  { symmetry. by eapply length_mapM. }
  intros i r Hr. rewrite !list_lookup_fmap, Hr. simpl.
  apply mapM_Some in Hfeats.
  destruct (Forall2_lookup_l _ _ _ _ _ Hfeats Hr) as (x & Hx & Hfile).
  rewrite Hx, Hfile. eauto.
Qed.

(** X2: [load_dataset] raises as soon as the file of one row is missing, and
    otherwise returns one array, one label and one identifier per row, in
    the order of the rows: the array is the content of the row's file. *)
Theorem load_dataset_rows fs X dir_path offset :
  match load_dataset fs X dir_path offset with
  | None =>
      ∃ r, r ∈ X ∧ fs !! feature_file dir_path (row_file_path r) offset = None
  | Some (feats, labels, ids) =>
      length feats = length X ∧ length labels = length X ∧
      length ids = length X ∧
      ∀ i r, X !! i = Some r →
        feats !! i = fs !! feature_file dir_path (row_file_path r) offset ∧
        is_Some (feats !! i) ∧
        labels !! i = Some (row_label r) ∧ ids !! i = Some (row_id r)
  end.
Proof.
  destruct (load_dataset fs X dir_path offset) as [[[feats labels] ids]|]
    eqn:Hload.
  - by apply load_dataset_Some.
  - assert (¬ Forall (λ r, is_Some (fs !! feature_file dir_path
                                      (row_file_path r) offset)) X) as Hno.
    { rewrite <-load_dataset_is_Some, Hload. by intros [? ?]. }
    apply not_Forall_Exists in Hno; [|apply _].
    apply Exists_exists in Hno as (r & Hr & Hfile).
    exists r. split; [done|]. by apply eq_None_not_Some.
Qed.

End loading.

(** ** The dataset and its batches *)

Section dataset.
Implicit Types (ds : MyDataset) (fs : file_system).

(** For an index counted from the start, [__getitem__] returns exactly
    when the index is in range of the three sequences of the dataset, and
    then with their entries at the index and the column count of the
    array. *)
Theorem getitem_in_range ds i :
  match getitem ds i with
  | Some d =>
      ds_ids ds !! i = Some (it_id d) ∧ ds_data ds !! i = Some (it_x d) ∧
      ds_targets ds !! i = Some (it_label d) ∧
      it_len d = Z.of_nat (shape1 (it_x d))
  | None =>
      (length (ds_ids ds) ≤ i ∨ length (ds_data ds) ≤ i
       ∨ length (ds_targets ds) ≤ i)%nat
  end.
Proof.
  unfold getitem.
  destruct (ds_ids ds !! i) as [id|] eqn:Hid; simpl;
    [|left; by apply lookup_ge_None].
  destruct (ds_data ds !! i) as [x|] eqn:Hx; simpl;
    [|right; left; by apply lookup_ge_None].
  destruct (ds_targets ds !! i) as [y|] eqn:Hy; simpl;
    [done|right; right; by apply lookup_ge_None].
Qed.

(** X3: The dataset assembled from two loaded manifests has one element per
    row of the first manifest followed by one per row of the second; the
    element of a row carries the row's identifier and label, the array of
    the row's file and the column count of that array. *)
Theorem test_dataset_follows_manifests fs X_a dir_a X_b dir_b offset a b :
  load_dataset fs X_a dir_a offset = Some a →
  load_dataset fs X_b dir_b offset = Some b →
  ds_len (test_dataset a b) = (length X_a + length X_b)%nat ∧
  ∀ i r, (X_a ++ X_b) !! i = Some r →
    ∃ x,
      fs !! feature_file (if decide (i < length X_a)%nat then dir_a else dir_b)
                         (row_file_path r) offset = Some x ∧
      getitem (test_dataset a b) i
      = Some (Item (row_id r) x (row_label r) (Z.of_nat (shape1 x))).
Proof.
  intros Ha Hb.
  destruct a as [[fa la] ia], b as [[fb lb] ib].
  apply load_dataset_Some in Ha as (Hfa & Hla & Hia & Hrows_a).
  apply load_dataset_Some in Hb as (Hfb & Hlb & Hib & Hrows_b).
  unfold ds_len, test_dataset, getitem. simpl. split.
  { rewrite length_app. lia. }
  intros i r Hr. case_decide as Hi.
  - rewrite lookup_app_l in Hr by done.
    destruct (Hrows_a i r Hr) as (Hfile & [x Hx] & Hl & Hid).
    exists x. split; [congruence|].
    rewrite !lookup_app_l by lia. rewrite Hid, Hx, Hl. done.
  - rewrite lookup_app_r in Hr by lia.
    destruct (Hrows_b _ r Hr) as (Hfile & [x Hx] & Hl & Hid).
    exists x. split; [congruence|].
    rewrite !lookup_app_r by lia. rewrite Hia, Hfa, Hla, Hid, Hx, Hl. done.
Qed.

(** X4: The batch of one element of the dataset, as the data loader of the
    script builds it, is collated without error and without padding: the
    features have the shape (1, rows, columns) of the array and hold its
    entries converted to float32 (rounded to the nearest binary32 value,
    when they are in range), so the entries themselves where they are
    binary32 values, and the mask is one at every position. *)
Theorem collate_fn_batch_of_one ds i d :
  getitem ds i = Some d →
  ∃ features lengths,
    collate_fn [d] = Some ([it_id d], features, [it_label d], lengths) ∧
    dim0 features = 1%nat ∧ dim1 features = shape0 (it_x d) ∧
    dim2 features = shape1 (it_x d) ∧
    shape0 lengths = 1%nat ∧ shape1 lengths = shape1 (it_x d) ∧
    (∀ r c, (r < shape0 (it_x d))%nat → (c < shape1 (it_x d))%nat →
            (f32.in_range (at2 (it_x d) r c) →
             at3 features 0 r c = f32.round (at2 (it_x d) r c)) ∧
            (f32.representable (at2 (it_x d) r c) →
             at3 features 0 r c = at2 (it_x d) r c)) ∧
    (∀ c, (c < shape1 (it_x d))%nat → at2 lengths 0 c = 1%Z).
Proof.
  intros Hd.
  destruct (collate_fn_total [d] d) as (ids & f & lab & l & Hrun & _ & _ & Hf2).
  { done. }
  { constructor; [by eapply getitem_len|done]. }
  { by constructor. }
  pose proof Hrun as Hinv.
  apply collate_fn_inv in Hinv
    as (d0 & max_len & [= <-] & _ & _ & -> & -> & Hinv).
  destruct Hinv as (Hf0 & Hf1 & Hf2' & Hl0 & Hl1 & _ & Hdone). simpl in *.
  destruct (Hdone 0%nat d) as (_ & _ & Hcopy & _ & Hmask); [lia|done|].
  assert (dim2 f = shape1 (it_x d)) as Hcols by (rewrite Hf2; simpl; lia).
  exists f, l. split_and!; try done.
  - congruence.
  - intros r c Hr Hc. split; [intros _; by apply Hcopy|].
    intros [Hrep _]. rewrite Hcopy by done. exact Hrep.
  - intros c Hc. by rewrite Hmask, decide_True.
Qed.

End dataset.

(** ** The errors of the collation step *)

(** X5: [collate_fn] returns exactly when the batch is not empty, no example
    has more columns than the greatest length entry of the batch, and the
    row count of every example is that of the first example or one; in every
    other case it raises. *)
Theorem collate_fn_returns_iff data :
  is_Some (collate_fn data) ↔
  ∃ d0 max_len,
    data !! 0%nat = Some d0 ∧
    py_max (it_len <$> data) = Some max_len ∧
    Forall (λ d, (Z.of_nat (shape1 (it_x d)) ≤ max_len)%Z ∧
                 (shape0 (it_x d) = shape0 (it_x d0)
                  ∨ shape0 (it_x d) = 1%nat)) data.
Proof.
  split.
  - intros [[[[ids f] lab] l] Hrun].
    apply collate_fn_inv in Hrun
      as (d0 & max_len & Hd0 & Hmax & _ & _ & _ & Hinv).
    exists d0, max_len. split_and!; [done|done|].
    destruct Hinv as (_ & _ & _ & _ & _ & _ & Hdone).
    apply Forall_lookup. intros i d Hd.
    destruct (Hdone i d) as (? & ? & _); [by eapply lookup_lt_Some|done|done].
  - intros (d0 & max_len & Hd0 & Hmax & Hall).
    assert (0 ≤ max_len)%Z as Hpos.
    { destruct (Forall_lookup_1 _ _ _ _ Hall Hd0) as [? _]. lia. }
    unfold collate_fn. rewrite Hmax. simpl. rewrite Hd0. simpl.
    unfold torch.zeros3 at 1, torch.zeros2 at 1.
    destruct (Z.ltb_spec max_len 0); [lia|]. simpl.
    edestruct (foldlM_range_total (collate_step data max_len)
                 (collate_inv data max_len (shape0 (it_x d0))) (length data))
      as ([f l] & Hloop & _); [| |by rewrite Hloop].
    + intros i [f l] Hi Hinv.
      assert (∃ s', collate_step data max_len (f, l) i = Some s') as [s' Hs'];
        [|exists s'; split; [done|by eapply collate_step_inv]].
      destruct Hinv as (Hf0 & Hf1 & Hf2 & Hl0 & Hl1 & _). simpl in *.
      destruct (lookup_lt_is_Some_2 data i Hi) as [d Hd].
      destruct (Forall_lookup_1 _ _ _ _ Hall Hd) as [Hk Hrows].
      unfold collate_step. rewrite Hd. simpl. unfold torch.zeros2.
      destruct (Z.ltb_spec (max_len - Z.of_nat (shape1 (it_x d))) 0); [lia|].
      simpl. unfold torch.cat_dim1. simpl.
      rewrite decide_True by done. simpl.
      unfold torch.setitem3, torch.broadcastable. simpl.
      rewrite decide_True by lia.
      assert (bool_decide (shape0 (it_x d) = dim1 f)
              || bool_decide (shape0 (it_x d) = 1%nat) = true) as ->.
      { apply orb_true_iff. rewrite !bool_decide_eq_true, Hf1. done. }
      rewrite (bool_decide_eq_true_2 (_ = dim2 f)) by lia.
      simpl. unfold torch.fill_prefix. rewrite decide_True by lia.
      simpl. eauto.
    + split_and!; simpl; try done. intros; lia.
Qed.

(** ** The embedding of one utterance *)

Section embedding.
Context `{TorchMean}.
Implicit Types (t : tensor) (model : feature_model).

Lemma chunks_blocks n k (l : list Qc) :
  chunks n k l = (λ i, take k (drop (i * k) l)) <$> seq 0 n.
Proof.
  revert l. induction n as [|n IH]; intros l; [done|].
  cbn [chunks seq]. rewrite fmap_cons, IH, <-fmap_S_seq, <-list_fmap_compose.
  f_equal. apply list_fmap_ext. intros _ i _. simpl.
  by rewrite drop_drop.
Qed.

Lemma lookup_block k i j (l : list Qc) :
  (j < k)%nat → take k (drop (i * k) l) !! j = l !! (i * k + j)%nat.
Proof. intros Hj. by rewrite lookup_take_lt, lookup_drop. Qed.

(** The mean over the leading axis, by the row-major index of the
    entries: entry [j] of the result is the float32 mean of the entries
    [i * m + j] over the [n] indices [i] of the axis, in their order;
    [m] is the number of entries of one slice. *)
Lemma mean_dim0_entries t n rest :
  shape t = n :: rest → tensor_wf t → n ≠ 0%nat →
  torch_t.mean_dim0 t
  = Some (Tensor rest
            ((λ j, mean32 ((λ i, default 0 (data t !! (i * numel rest + j)%nat))
                             <$> seq 0 n))
               <$> seq 0 (numel rest))).
Proof.
  intros Hshape Hwf Hn. unfold torch_t.mean_dim0. rewrite Hshape.
  rewrite decide_False by done.
  unfold tensor_wf in Hwf. rewrite Hshape in Hwf. cbn [numel foldr] in Hwf.
  fold (numel rest) in Hwf.
  do 2 f_equal. apply list_fmap_ext.
  intros pos j [Hpos Hj]%lookup_seq. simpl in Hpos. subst j.
  cbn beta. f_equal.
  rewrite chunks_blocks, <-list_fmap_compose. apply list_fmap_ext.
  intros pos' i _. unfold compose. by rewrite lookup_block.
Qed.

(** X6: For features of shape (1, T, D) with more than one frame and more
    than one feature, the embedding that the loop appends is the vector of
    the D averages over the T frames, under the first identifier of the
    batch: entry [d] is the float32 mean of the feature [d] of the frames,
    in the order of the frames. *)
Theorem observe_time_average model ids inputs labels lengths id T D :
  ids !! 0%nat = Some id →
  shape (model inputs (torch.unsqueeze1 lengths)) = [1%nat; T; D] →
  tensor_wf (model inputs (torch.unsqueeze1 lengths)) →
  (1 < T)%nat → D ≠ 1%nat →
  observe model (ids, inputs, labels, lengths)
  = Some (id,
          Tensor [D]
            ((λ d, mean32 ((λ f, default 0
                              (data (model inputs (torch.unsqueeze1 lengths))
                                 !! (f * D + d)%nat)) <$> seq 0 T))
               <$> seq 0 D)).
Proof.
  intros Hid Hshape Hwf HT HD. unfold observe.
  set (out := model inputs (torch.unsqueeze1 lengths)) in *.
  rewrite (mean_dim0_entries (torch_t.squeeze out) T [D]).
  - cbn [mbind option_bind]. rewrite Hid. cbn [mbind option_bind numel foldr].
    by rewrite Nat.mul_1_r.
  - unfold torch_t.squeeze. rewrite Hshape. cbn [shape].
    rewrite filter_cons_False by (intros ?; done).
    rewrite filter_cons_True by lia. rewrite filter_cons_True by done.
    done.
  - unfold tensor_wf, torch_t.squeeze in *. rewrite Hshape in *.
    cbn [shape data] in *.
    rewrite filter_cons_False by (intros ?; done).
    rewrite filter_cons_True by lia. rewrite filter_cons_True by done.
    rewrite Hwf. simpl. lia.
  - lia.
Qed.

(** X7: For features of shape (1, 1, D), one frame, [squeeze] removes the
    axis of the frames as well: the embedding that is appended is not a
    vector of D entries but a rank-0 tensor, the float32 mean of the D
    features. *)
Theorem observe_one_frame model ids inputs labels lengths id D :
  ids !! 0%nat = Some id →
  shape (model inputs (torch.unsqueeze1 lengths)) = [1%nat; 1%nat; D] →
  tensor_wf (model inputs (torch.unsqueeze1 lengths)) →
  (1 < D)%nat →
  observe model (ids, inputs, labels, lengths)
  = Some (id,
          Tensor []
            [mean32 (data (model inputs (torch.unsqueeze1 lengths)))]).
Proof.
  intros Hid Hshape Hwf HD. unfold observe.
  set (out := model inputs (torch.unsqueeze1 lengths)) in *.
  assert (length (data out) = D) as Hlen.
  { unfold tensor_wf in Hwf. rewrite Hshape in Hwf.
    cbn [numel foldr] in Hwf. lia. }
  rewrite (mean_dim0_entries (torch_t.squeeze out) D []).
  - cbn [mbind option_bind]. rewrite Hid.
    cbn [mbind option_bind numel foldr seq fmap list_fmap].
    do 5 f_equal. rewrite <-Hlen.
    rewrite <-(fmap_lookup_seq (data out)) at 2.
    apply list_fmap_ext. intros _ i _. cbn [torch_t.squeeze data].
    do 2 f_equal. lia.
  - unfold torch_t.squeeze. rewrite Hshape. cbn [shape].
    rewrite !filter_cons_False by (intros ?; done).
    by rewrite filter_cons_True by lia.
  - unfold tensor_wf, torch_t.squeeze. rewrite Hshape. cbn [shape data].
    rewrite !filter_cons_False by (intros ?; done).
    rewrite filter_cons_True by lia. simpl. lia.
  - lia.
Qed.

End embedding.

(** ** The final loop over the profiles *)

Section final_loop.
Context `{TorchMean}.
Implicit Types (obs : list (string * tensor)) (id : string).

Lemma dict_append_total_length {V} (d : dict (list V)) key x :
  sum_list (length ∘ snd <$> dict_append d key x)
  = S (sum_list (length ∘ snd <$> d)).
Proof.
  induction d as [|[k vs] d IH]; [done|].
  cbn [dict_append]. case_decide.
  - rewrite !fmap_cons. cbn. rewrite length_app. simpl. lia.
  - rewrite !fmap_cons. cbn [sum_list sum_list_with]. rewrite IH.
    unfold compose. simpl. lia.
Qed.

Lemma accumulate_total_length obs :
  sum_list (length ∘ snd <$> accumulate obs) = length obs.
Proof.
  unfold accumulate.
  assert (∀ d : dict (list tensor),
            sum_list (length ∘ snd
                        <$> foldl (λ profiles o, dict_append profiles o.1 o.2)
                                  d obs)
            = (sum_list (length ∘ snd <$> d) + length obs)%nat) as Hgen.
  { induction obs as [|o obs IH]; intros d; simpl; [lia|].
    rewrite IH, dict_append_total_length. lia. }
  by rewrite Hgen.
Qed.

(** The keys of the dictionary are the identifiers in the order of their
    first observation. *)
Lemma accumulate_keys obs :
  (accumulate obs).*1 = reverse (remove_dups (reverse obs.*1)).
Proof.
  induction obs as [|o obs IH] using rev_ind; [done|].
  unfold accumulate in *. rewrite foldl_app. simpl.
  rewrite dict_append_keys, IH, fmap_app, reverse_app. simpl.
  destruct (decide_rel elem_of o.1 (reverse obs.*1)) as [Hin|Hnin].
  - by rewrite decide_True
      by (by rewrite elem_of_reverse, elem_of_remove_dups).
  - rewrite decide_False
      by (by rewrite elem_of_reverse, elem_of_remove_dups).
    by rewrite reverse_cons.
Qed.

(** X8: When the final loop ends, the count it prints is the number of
    observations, the lines it prints are the identifiers in the order of
    their first observation, each once and with the number of its
    observations, and the stored dictionary has the same keys in the same
    order. *)
Theorem finalize_prints_the_observations obs printed count out :
  finalize (accumulate obs) = Some (printed, count, out) →
  count = length obs ∧
  printed.*1 = reverse (remove_dups (reverse obs.*1)) ∧
  out.*1 = printed.*1 ∧
  NoDup printed.*1 ∧
  ∀ id n, (id, n) ∈ printed → n = length (embeddings_for id obs) ∧ n ≠ 0%nat.
Proof.
  unfold finalize. rewrite finalize_from.
  destruct (mapM _ (accumulate obs)) as [ms|] eqn:Hms; simpl; [|done].
  intros [= <- <- <-].
  assert (ms.*1 = (accumulate obs).*1) as Hkeys.
  { apply mapM_Some in Hms. clear -Hms.
    induction Hms as [|[k vs] [k' m] d ms Hkv _ IH]; [done|].
    simpl in *. destruct (mean_stack vs); simplify_eq/=. by f_equal. }
  assert (((λ kv : string * list tensor, (kv.1, length kv.2))
             <$> accumulate obs).*1 = (accumulate obs).*1) as Hprinted.
  { rewrite <-list_fmap_compose. by apply list_fmap_ext. }
  split_and!.
  - by rewrite accumulate_total_length.
  - by rewrite Hprinted, accumulate_keys.
  - by rewrite Hkeys, Hprinted.
  - rewrite Hprinted. apply accumulate_keys_NoDup.
  - intros id n [[k vs] [[= -> ->] Hin]]%list_elem_of_fmap.
    apply accumulate_entries in Hin as [-> Hne].
    split; [done|]. by destruct (embeddings_for k obs).
Qed.

(** X9: The final loop raises exactly when two observations of one
    identifier have embeddings of different shapes. *)
Theorem stored_profiles_raises_iff obs :
  stored_profiles obs = None ↔
  ∃ o1 o2, o1 ∈ obs ∧ o2 ∈ obs ∧ o1.1 = o2.1 ∧ shape o1.2 ≠ shape o2.2.
Proof.
  split.
  - intros Hnone.
    destruct (decide (Exists (λ o1, Exists (λ o2,
                 o1.1 = o2.1 ∧ shape o1.2 ≠ shape o2.2) obs) obs))
      as [Hex|Hno].
    { apply Exists_exists in Hex as (o1 & H1 & Hex).
      apply Exists_exists in Hex as (o2 & H2 & Hid & Hsh). by exists o1, o2. }
    assert (is_Some (stored_profiles obs)) as [? Hsome]; [|congruence].
    apply stored_profiles_is_Some. intros id Hne.
    apply mean_stack_is_Some. split; [done|].
    intros e1 e2 He1 He2. unfold embeddings_for in He1, He2.
    apply list_elem_of_fmap in He1 as (o1 & -> & [Hid1 H1]%list_elem_of_filter).
    apply list_elem_of_fmap in He2 as (o2 & -> & [Hid2 H2]%list_elem_of_filter).
    destruct (decide (shape o1.2 = shape o2.2)) as [|Hsh]; [done|].
    exfalso. apply Hno. apply Exists_exists. exists o1. split; [done|].
    apply Exists_exists. exists o2. split; [done|]. split; [congruence|done].
  - intros (o1 & o2 & H1 & H2 & Hid & Hsh).
    apply eq_None_not_Some. intros Hsome.
    rewrite stored_profiles_is_Some in Hsome.
    assert (o1.2 ∈ embeddings_for o1.1 obs) as He1.
    { apply list_elem_of_fmap. exists o1. split; [done|].
      by apply list_elem_of_filter. }
    assert (o2.2 ∈ embeddings_for o1.1 obs) as He2.
    { apply list_elem_of_fmap. exists o2. split; [done|].
      by apply list_elem_of_filter. }
    destruct (Hsome o1.1) as [m Hm].
    { intros Hnil. rewrite Hnil in He1. by apply elem_of_nil in He1. }
    apply Hsh.
    by eapply (proj1 (mean_stack_is_Some _) (mk_is_Some _ _ Hm)).
Qed.

(** X10: The profile stored for an identifier that was observed once is
    the embedding of that observation, a float32 tensor. *)
Theorem single_observation_profile obs fin id e :
  stored_profiles obs = Some fin →
  embeddings_for id obs = [e] →
  tensor_wf e → float32_tensor e →
  dict_get fin id = Some e.
Proof.
  intros Hfin He Hwf Hf32. rewrite (stored_profiles_lookup _ _ _ Hfin), He.
  rewrite mean_stack_same_shape by (by repeat constructor).
  unfold mean_in_order. destruct e as [sh d]. cbn [shape data length].
  unfold tensor_wf in Hwf. cbn [shape data] in Hwf. rewrite <-Hwf.
  unfold float32_tensor in Hf32. cbn [data] in Hf32.
  do 2 f_equal. rewrite <-(fmap_lookup_seq d) at 2.
  apply list_fmap_ext. intros i j [Hij Hj]%lookup_seq. simpl in Hij. subst j.
  destruct (lookup_lt_is_Some_2 d i Hj) as [x Hx]. simpl.
  rewrite !Hx. simpl. apply mean32_one.
  by eapply (Forall_lookup_1 _ _ _ _ Hf32).
Qed.

End final_loop.

(** ** The pass as a whole *)

Section whole_pass.
Context `{TorchMean}.
Implicit Types (ds : MyDataset) (model : feature_model).





End whole_pass.

(** X12: A missing file of either manifest aborts the script before any
    batch is built: nothing is written. *)
Theorem profiles_gen_missing_file `{TorchMean} fs model X_a dir_a X_b dir_b
    path r :
  (r ∈ X_a ∧ fs !! feature_file dir_a (row_file_path r) 4 = None)
  ∨ (r ∈ X_b ∧ fs !! feature_file dir_b (row_file_path r) 4 = None) →
  profiles_gen fs model X_a dir_a X_b dir_b path = None.
Proof.
  intros Hmissing. unfold profiles_gen.
  destruct (load_dataset fs X_a dir_a 4) as [a|] eqn:Ha; [|done].
  cbn [mbind option_bind].
  destruct (load_dataset fs X_b dir_b 4) as [b|] eqn:Hb; [|done].
  exfalso.
  assert (is_Some (load_dataset fs X_a dir_a 4)) as Ha' by by rewrite Ha.
  assert (is_Some (load_dataset fs X_b dir_b 4)) as Hb' by by rewrite Hb.
  rewrite load_dataset_is_Some, Forall_forall in Ha', Hb'.
  destruct Hmissing as [[Hr Hnone]|[Hr Hnone]].
  - destruct (Ha' r Hr) as [x Hx]. congruence.
  - destruct (Hb' r Hr) as [x Hx]. congruence.
Qed.

(** ** Further properties of the criterion *)

Section criterion_more.
Context `{Math} `{EncoderContrastive} {I : Type}.
Implicit Types (self : CrossEntropyCriterion) (model : Model I).
Implicit Types (lprobs : matrix) (targets : list Z).

Local Arguments F.nll_loss : simpl never.

(** X15: Whenever the model returns the 5-tuple of the encoder-contrastive
    mode, [forward] raises: it applies [F.softmax] to the output of the
    model as it is, after [compute_loss] has unpacked its own copy. *)
Theorem forward_raises_on_tuple self model (s : sample I) reduce
    ae_input ae_hidden cnn_hidden ae_output logits :
  model_call model (net_input s)
  = Tuple5 ae_input ae_hidden cnn_hidden ae_output logits →
  forward self model s reduce = None.
Proof.
  intros Hout. unfold forward. rewrite Hout.
  by destruct (compute_loss _ _ _ _ _) as [[loss outputs]|].
Qed.

(** X16: In the encoder-contrastive mode the loss that [compute_loss]
    returns for [reduce=True] is the sum of the mean squared error between
    the reconstruction and the input of the autoencoder, the class-weighted
    negative log-likelihood, and 0.0005 times the contrastive loss of the
    two stacked hidden representations. *)
Theorem compute_loss_contrastive_sum self model (s : sample I)
    ae_input ae_hidden cnn_hidden ae_output logits loss outputs :
  encoder_contrastive self = true →
  compute_loss self model
    (Tuple5 ae_input ae_hidden cnn_hidden ae_output logits) s true
  = Some (loss, outputs) →
  ∃ lprobs ae_loss stacked cl_loss,
    get_normalized_probs model (Logits logits) = Some lprobs ∧
    F.mse_loss ae_output ae_input = Some ae_loss ∧
    F.stack_dim1 ae_hidden cnn_hidden = Some stacked ∧
    SupConLoss stacked = Some cl_loss ∧
    loss = Num (ae_loss
                + weighted_nll lprobs (get_targets model s (Logits logits))
                + Q2Qc (5 # 10000) * cl_loss).
Proof.
  intros Hon. unfold compute_loss. rewrite Hon. cbn [mbind option_bind].
  destruct (get_normalized_probs model (Logits logits)) as [lprobs|];
    cbn [mbind option_bind]; [|done].
  destruct (F.nll_loss _ _ _ _) as [l|] eqn:Hl;
    cbn [mbind option_bind]; [|done].
  apply nll_loss_weighted in Hl as (_ & _ & ->).
  destruct (F.mse_loss ae_output ae_input) as [ae_loss|];
    cbn [mbind option_bind]; [|done].
  destruct (F.stack_dim1 ae_hidden cnn_hidden) as [stacked|];
    cbn [mbind option_bind]; [|done].
  destruct (SupConLoss stacked) as [cl_loss|] eqn:Hcl;
    cbn [mbind option_bind]; [|done].
  unfold py_add, py_arith. cbn [mbind option_bind fmap option_fmap option_map].
  intros [= <- <-]. by exists lprobs, ae_loss, stacked, cl_loss.
Qed.

Lemma nll_item_is_Some (row : list Qc) t :
  length row = 2%nat →
  is_Some (F.nll_item class_weights row t) ↔ (t = 0 ∨ t = 1 ∨ t = -100)%Z.
Proof.
  intros Hrow. destruct row as [|x0 [|x1 [|]]]; try done.
  unfold F.nll_item. split.
  - case_decide; [by auto|]. case_decide as Ht; [|by intros [? ?]].
    intros _. simpl in Ht. lia.
  - intros [->|[->| ->]]; by eexists.
Qed.

(** X17: With the mode off, [compute_loss] returns exactly when the
    normalized output has one row per target, every row has two classes, and
    every target is class 0, class 1 or the ignored index -100; in every
    other case it raises. *)
Theorem compute_loss_returns_iff self model net_output (s : sample I)
    reduce lprobs :
  encoder_contrastive self = false →
  get_normalized_probs model net_output = Some lprobs →
  is_Some (compute_loss self model net_output s reduce) ↔
  length lprobs = length (get_targets model s net_output) ∧
  Forall (λ row, length row = 2%nat) lprobs ∧
  Forall (λ t, t = 0 ∨ t = 1 ∨ t = -100)%Z (get_targets model s net_output).
Proof.
  intros Hoff Hl. unfold compute_loss. rewrite Hoff.
  cbn [mbind option_bind]. rewrite Hl. cbn [mbind option_bind].
  set (targets := get_targets model s net_output).
  unfold F.nll_loss. split.
  - case_decide as Hlen; [|by intros [? ?]].
    case_decide as Hrows; [|by intros [? ?]].
    destruct (mapM _ _) as [items|] eqn:Hitems; [|by intros [? ?]].
    intros _. split_and!; [done|done|].
    apply Forall_lookup. intros i t Ht.
    destruct (lookup_lt_is_Some_2 lprobs i) as [row Hrow].
    { rewrite Hlen. by eapply lookup_lt_Some. }
    assert (is_Some (F.nll_item class_weights row t)) as Hitem.
    { apply mapM_Some in Hitems.
      destruct (Forall2_lookup_l _ _ _ i (row, t) Hitems) as (x & _ & Hx).
      - by apply lookup_zip_with_Some; exists row, t.
      - by exists x. }
    apply nll_item_is_Some in Hitem; [done|].
    by eapply (Forall_lookup_1 _ _ _ _ Hrows).
  - intros (Hlen & Hrows & Htargets).
    rewrite !decide_True by done.
    assert (is_Some (mapM (λ p, F.nll_item class_weights p.1 p.2)
                          (zip lprobs targets))) as [items ->]; [|by eexists].
    apply mapM_is_Some_2, Forall_forall. intros [row t] Hin. simpl.
    apply nll_item_is_Some.
    + rewrite Forall_forall in Hrows. apply Hrows. by eapply elem_of_zip_l.
    + rewrite Forall_forall in Htargets. apply Htargets.
      by eapply elem_of_zip_r.
Qed.

Lemma argmax_two_classes (x0 x1 : Qc) :
  F.argmax [x0; x1] = if decide (x0 < x1) then 1%Z else 0%Z.
Proof. unfold F.argmax. simpl. by case_decide. Qed.

(** X18: With the mode off, the predictions that [compute_loss] returns are
    one class per example: class 1 when the log-probability of class 1 is
    greater than that of class 0, class 0 otherwise, a tie included. *)
Theorem compute_loss_predictions self model net_output (s : sample I)
    reduce loss preds targets :
  encoder_contrastive self = false →
  compute_loss self model net_output s reduce = Some (loss, (preds, targets)) →
  ∃ lprobs,
    get_normalized_probs model net_output = Some lprobs ∧
    length preds = length targets ∧
    Forall2 (λ row p, ∃ x0 x1, row = [x0; x1] ∧
                      p = if decide (x0 < x1) then 1%Z else 0%Z)
            lprobs preds.
Proof.
  intros Hoff. unfold compute_loss. rewrite Hoff.
  cbn [mbind option_bind].
  destruct (get_normalized_probs model net_output) as [lprobs|];
    cbn [mbind option_bind]; [|done].
  destruct (F.nll_loss _ _ _ _) as [l|] eqn:Hl;
    cbn [mbind option_bind]; [|done].
  intros [= <- <- <-]. exists lprobs. split; [done|].
  unfold F.nll_loss in Hl. case_decide as Hlen; [|done].
  case_decide as Hrows; [|done]. split.
  - by rewrite length_fmap.
  - apply Forall2_fmap_r, Forall_Forall2_diag.
    eapply Forall_impl; [exact Hrows|]. intros row Hrow. simpl in Hrow.
    destruct row as [|x0 [|x1 [|]]]; try done.
    exists x0, x1. split; [done|]. apply argmax_two_classes.
Qed.

Lemma weighted_term_nonneg (row : list Qc) t :
  Forall (λ x, x ≤ 0) row →
  0 ≤ - (class_weight t * default 0 (row !! Z.to_nat t)).
Proof.
  intros Hrow.
  assert (default 0 (row !! Z.to_nat t) ≤ 0) as Hx.
  { destruct (row !! Z.to_nat t) as [x|] eqn:Hl; simpl; [|done].
    by eapply (Forall_lookup_1 _ _ _ _ Hrow). }
  assert (0 ≤ class_weight t) as Hw.
  { unfold class_weight. repeat case_decide; done. }
  replace (- (class_weight t * default 0 (row !! Z.to_nat t)))
    with (class_weight t * - default 0 (row !! Z.to_nat t)) by ring.
  apply Qcmult_nonneg_nonneg; [done|].
  by apply (Qcopp_le_compat _ 0) in Hx.
Qed.

(** X19: With the mode off and [reduce=True], the loss is not negative when
    no entry of the normalized output is positive, as for log-probabilities. *)
Theorem compute_loss_nonnegative self model net_output (s : sample I)
    lprobs loss outputs :
  encoder_contrastive self = false →
  get_normalized_probs model net_output = Some lprobs →
  Forall (Forall (λ x, x ≤ 0)) lprobs →
  compute_loss self model net_output s true = Some (loss, outputs) →
  ∃ v, loss = Num v ∧ 0 ≤ v.
Proof.
  intros Hoff Hl Hneg. unfold compute_loss. rewrite Hoff.
  cbn [mbind option_bind]. rewrite Hl. cbn [mbind option_bind].
  destruct (F.nll_loss _ _ _ _) as [l|] eqn:Hnll;
    cbn [mbind option_bind]; [|done].
  intros [= <- <-]. apply nll_loss_weighted in Hnll as (_ & _ & ->).
  eexists. split; [done|]. unfold weighted_nll.
  generalize (get_targets model s net_output). clear -Hneg.
  induction Hneg as [|row lprobs Hrow _ IH]; intros [|t targets];
    simpl; try done.
  apply Qcplus_nonneg_nonneg; [by apply weighted_term_nonneg | apply IH].
Qed.

(** X20: The list [predicts] of the logging output holds, for every example
    of the batch, its softmax probability of class 1; the branch of the
    batch of one example gives the same list as the general branch. *)
Theorem forward_predicts_class_1 self model (s : sample I) reduce
    loss sample_size log t :
  model_call model (net_input s) = Logits t →
  forward self model s reduce = Some (loss, sample_size, log) →
  ∃ predicts,
    log !! "predicts" = Some (Lst predicts) ∧
    Forall2 (λ row p, F.softmax_row row !! 1%nat = Some p) t predicts.
Proof.
  intros Hout. unfold forward. rewrite Hout.
  destruct (compute_loss _ _ _ _ _) as [[loss' outputs]|];
    cbn [mbind option_bind F.softmax]; [|done].
  match goal with
  | |- context [if ?c then ?a else ?b] =>
      destruct (if c then a else b) as [predicts|] eqn:Hp
  end; cbn [mbind option_bind]; [|done].
  intros [= <- <- <-]. exists predicts. split; [done|].
  case_decide as Hone.
  - destruct t as [|row [|]]; try done. simpl in Hp.
    destruct (F.softmax_row row !! 1%nat) as [p|] eqn:Hrow;
      simpl in Hp; [|done].
    injection Hp as <-. by repeat constructor.
  - apply mapM_Some in Hp. by apply Forall2_fmap_l in Hp.
Qed.

(** X21: When the targets of the model are those of the sample, the fields
    [ncorrect] and [nsentences] of the logging output are counts,
    [nsentences] is the number of targets of the sample, and [ncorrect] is
    at most [nsentences]. *)
Theorem forward_ncorrect_bounded self model (s : sample I) reduce
    loss sample_size log :
  (∀ out, get_targets model s out = target s) →
  forward self model s reduce = Some (loss, sample_size, log) →
  ∃ c n,
    log !! "ncorrect" = Some (Num (Qnat c)) ∧
    log !! "nsentences" = Some (Num (Qnat n)) ∧
    n = length (target s) ∧ (c ≤ n)%nat.
Proof.
  intros Htargets. unfold forward.
  destruct (compute_loss _ _ _ _ _) as [[loss' [preds tgt]]|] eqn:Hc;
    cbn [mbind option_bind]; [|done].
  destruct (F.softmax _) as [raw|]; cbn [mbind option_bind]; [|done].
  match goal with
  | |- context [if ?c then ?a else ?b] =>
      destruct (if c then a else b) as [predicts|]
  end; cbn [mbind option_bind]; [|done].
  intros [= <- <- <-].
  exists (count_equal preds tgt), (length (target s)).
  split_and!; [done|done|done|].
  assert (tgt = target s) as ->.
  { unfold compute_loss in Hc.
    destruct (if encoder_contrastive self then _ else _) as [[aux out]|];
      cbn [mbind option_bind] in Hc; [|done].
    destruct (get_normalized_probs model out);
      cbn [mbind option_bind] in Hc; [|done].
    destruct (F.nll_loss _ _ _ _); cbn [mbind option_bind] in Hc; [|done].
    destruct (match aux with Some _ => _ | None => _ end);
      cbn [mbind option_bind] in Hc; [|done].
    injection Hc as _ _ <-. apply Htargets. }
  unfold count_equal.
  etrans; [apply length_filter|]. rewrite length_zip_with. lia.
Qed.

End criterion_more.

(** ** Further properties of the aggregation *)

Section aggregation_more.
Context `{Math}.
Implicit Types (logs : list (gmap string pyval)) (events : list metric_event).

Local Arguments py_div : simpl never.
Local Arguments py_mul : simpl never.
Local Arguments py_ne : simpl never.
Local Arguments summed : simpl never.

(** The first call of a returning [reduce_metrics]. *)
Lemma reduce_metrics_loss_inv logs events :
  reduce_metrics logs = Some events →
  ∃ loss_sum sample_size v rest,
    summed "loss" logs = Some loss_sum ∧
    summed "sample_size" logs = Some sample_size ∧
    py_div loss_sum sample_size
      ≫= (λ v, py_div v (Num (math_log (QZ 2)))) = Some v ∧
    events = LogScalar "loss" v sample_size 3 :: rest ∧
    scalars_of "loss" rest = [].
Proof.
  unfold reduce_metrics.
  destruct (summed "loss" logs) as [loss_sum|];
    cbn [mbind option_bind]; [|done].
  destruct (summed "ntokens" logs) as [ntokens|];
    cbn [mbind option_bind]; [|done].
  destruct (summed "sample_size" logs) as [sample_size|];
    cbn [mbind option_bind]; [|done].
  destruct (py_div loss_sum sample_size ≫= _) as [v|] eqn:Hv;
    cbn [mbind option_bind]; [|done].
  destruct (py_ne sample_size ntokens) as [differs|];
    cbn [mbind option_bind]; [|done].
  match goal with
  | |- context [if differs then ?a else ?b] =>
      destruct (if differs then a else b) as [e_ppl|] eqn:Hppl
  end; cbn [mbind option_bind]; [|done].
  destruct (summed "ncorrect" logs); cbn [mbind option_bind]; [|done].
  destruct (summed "nsentences" logs); cbn [mbind option_bind]; [|done].
  destruct (py_mul _ _ ≫= _); cbn [mbind option_bind]; [|done].
  intros [= <-]. eexists loss_sum, sample_size, v, _.
  split_and!; [done|done|done|done|].
  destruct differs; [|by injection Hppl as <-].
  destruct (py_div loss_sum ntokens ≫= _);
    cbn [mbind option_bind] in Hppl; [|done].
  by injection Hppl as <-.
Qed.

(** X22: Over records whose fields [loss] and [sample_size] are numbers, the
    one metric [loss] that [reduce_metrics] logs is the sum of the losses
    divided by the sum of the sample sizes and by log 2, weighted by the sum
    of the sample sizes. *)
Theorem reduce_metrics_loss logs events :
  Forall (λ log, ∃ l n, log !! "loss" = Some (Num l) ∧
                        log !! "sample_size" = Some (Num n)) logs →
  reduce_metrics logs = Some events →
  scalars_of "loss" events
  = [(Num (total "loss" logs / total "sample_size" logs / math_log (QZ 2)),
      Num (total "sample_size" logs))].
Proof.
  intros Hfields Hrun.
  apply reduce_metrics_loss_inv in Hrun
    as (loss_sum & sample_size & v & rest & Hl & Hn & Hv & -> & Hrest).
  rewrite summed_total in Hl, Hn.
  - simplify_eq. unfold py_div in Hv. simpl in Hv. unfold qdiv in Hv.
    case_decide; [done|]. simpl in Hv. case_decide; [done|].
    simpl in Hv. simplify_eq.
    unfold scalars_of in *. cbn [omap list_omap].
    rewrite decide_True by done. by rewrite Hrest.
  - eapply Forall_impl; [exact Hfields|].
    intros log (l & n & _ & Hn') v' ?. exists n. congruence.
  - eapply Forall_impl; [exact Hfields|].
    intros log (l & n & Hl' & _) v' ?. exists l. congruence.
Qed.

(** X23: Over records that have neither [loss] nor [sample_size], the empty
    list of records included, [reduce_metrics] raises: both sums are the
    integer 0 and the first division is 0 / 0. *)
Theorem reduce_metrics_without_sample_size logs :
  Forall (λ log, log !! "loss" = None ∧ log !! "sample_size" = None) logs →
  reduce_metrics logs = None.
Proof.
  intros Hnone. unfold reduce_metrics.
  assert (∀ key, Forall (λ log : gmap string pyval, log !! key = None) logs →
                 summed key logs = Some (Num 0)) as Hzero.
  { intros key Hkey. rewrite summed_total.
    - do 2 f_equal. clear -Hkey.
      induction Hkey as [|log logs Hlog _ IH]; [done|].
      change (total key (log :: logs))
        with (match log !! key with Some (Num q) => q | _ => 0 end
              + total key logs).
      rewrite Hlog, IH. ring.
    - eapply Forall_impl; [exact Hkey|]. intros log Hlog v ?. congruence. }
  rewrite (Hzero "loss"), (Hzero "sample_size").
  - cbn [mbind option_bind]. by destruct (summed "ntokens" logs).
  - eapply Forall_impl; [exact Hnone|]. by intros log [_ ?].
  - eapply Forall_impl; [exact Hnone|]. by intros log [? _].
Qed.

Lemma total_permutation key logs logs' :
  logs ≡ₚ logs' → total key logs = total key logs'.
Proof. intros Hp. unfold total. apply qsum_permutation. by rewrite Hp. Qed.

(** X24: Over records whose fields [ncorrect] and [nsentences] are
    integer counts, the accuracy that [reduce_metrics] logs, and its
    weight, do not depend on the order of the records. *)
Theorem reduce_metrics_accuracy_permutation logs logs' events events' :
  Forall (λ log, ∃ c n : nat,
            log !! "ncorrect" = Some (Num (Qnat c)) ∧
            log !! "nsentences" = Some (Num (Qnat n))) logs →
  logs ≡ₚ logs' →
  reduce_metrics logs = Some events →
  reduce_metrics logs' = Some events' →
  scalars_of "accuracy" events' = scalars_of "accuracy" events.
Proof.
  intros Hcounts Hp Hrun Hrun'.
  assert (∀ key, key = "ncorrect" ∨ key = "nsentences" →
            Forall (λ log : gmap string pyval,
                      ∀ v, log !! key = Some v → ∃ q, v = Num q) logs)
    as Hnum.
  { intros key Hkey. eapply Forall_impl; [exact Hcounts|].
    intros log (c & n & Hc & Hn) v Hv.
    destruct Hkey as [-> | ->]; [rewrite Hc in Hv|rewrite Hn in Hv];
      injection Hv as <-; by eexists. }
  assert (∀ key, key = "ncorrect" ∨ key = "nsentences" →
            summed key logs' = summed key logs) as Hsum.
  { intros key Hkey. rewrite !summed_total.
    - by rewrite (total_permutation key logs logs').
    - by apply Hnum.
    - rewrite <-Hp. by apply Hnum. }
  apply reduce_metrics_inv in Hrun
    as (loss_sum & ntokens & sample_size & v & differs & e_ppl & ncorrect
        & nsentences & acc & _ & _ & _ & _ & Hppl & Hc & Hn & Hacc & ->).
  apply reduce_metrics_inv in Hrun'
    as (loss_sum' & ntokens' & sample_size' & v' & differs' & e_ppl'
        & ncorrect' & nsentences' & acc' & _ & _ & _ & _ & Hppl' & Hc'
        & Hn' & Hacc' & ->).
  rewrite Hsum, Hc in Hc' by auto. rewrite Hsum, Hn in Hn' by auto.
  simplify_eq.
  destruct differs; [destruct Hppl as (w & _ & ->) | subst e_ppl];
    (destruct differs'; [destruct Hppl' as (w' & _ & ->) | subst e_ppl']);
    done.
Qed.

Lemma totals_of_counts_le logs :
  Forall (λ log, ∃ c n : nat,
            log !! "ncorrect" = Some (Num (Qnat c)) ∧
            log !! "nsentences" = Some (Num (Qnat n)) ∧ (c ≤ n)%nat) logs →
  ∃ C N : nat,
    total "ncorrect" logs = Qnat C ∧ total "nsentences" logs = Qnat N ∧
    (C ≤ N)%nat.
Proof.
  induction 1 as [|log logs (c & n & Hc & Hn & Hle) _ (C & N & HC & HN & HLE)].
  - exists 0%nat, 0%nat. unfold Qnat. change (Z.of_nat 0) with 0%Z.
    by rewrite Z2Qc_inj_0.
  - exists (c + C)%nat, (n + N)%nat.
    change (total "ncorrect" (log :: logs))
      with (match log !! "ncorrect" with Some (Num q) => q | _ => 0 end
            + total "ncorrect" logs).
    change (total "nsentences" (log :: logs))
      with (match log !! "nsentences" with Some (Num q) => q | _ => 0 end
            + total "nsentences" logs).
    rewrite Hc, Hn, HC, HN. unfold Qnat.
    rewrite !Nat2Z.inj_add, !Z2Qc_inj_add. split_and!; [done|done|lia].
Qed.

(** X25: Over records in which [ncorrect] and [nsentences] are counts with
    [ncorrect] at most [nsentences], as [forward] produces them, the
    accuracy that [reduce_metrics] logs lies between 0 and 100. *)
Theorem reduce_metrics_accuracy_range logs events :
  Forall (λ log, ∃ c n : nat,
            log !! "ncorrect" = Some (Num (Qnat c)) ∧
            log !! "nsentences" = Some (Num (Qnat n)) ∧ (c ≤ n)%nat) logs →
  reduce_metrics logs = Some events →
  ∃ a w, scalars_of "accuracy" events = [(Num a, w)] ∧ 0 ≤ a ∧ a ≤ QZ 100.
Proof.
  intros Hcounts Hrun.
  destruct (totals_of_counts_le logs Hcounts) as (C & N & HC & HN & HLE).
  apply reduce_metrics_inv in Hrun
    as (loss_sum & ntokens & sample_size & v & differs & e_ppl & ncorrect
        & nsentences & acc & _ & _ & _ & _ & Hppl & Hc & Hn & Hacc & ->).
  rewrite summed_total in Hc, Hn.
  2,3: eapply Forall_impl; [exact Hcounts|];
       intros log (c & n & Hc' & Hn' & _) v' Hv;
       first [rewrite Hc' in Hv | rewrite Hn' in Hv];
       injection Hv as <-; by eexists.
  simplify_eq. rewrite HC, HN in *.
  unfold py_mul, py_div in Hacc. simpl in Hacc. unfold qdiv in Hacc.
  case_decide as HN0; [done|]. simpl in Hacc. simplify_eq.
  eexists _, _. split.
  { destruct differs; [destruct Hppl as (v' & _ & ->) | subst e_ppl]; done. }
  assert (0 < Qnat N) as Hpos.
  { assert (N ≠ 0%nat) as HN1.
    { intros ->. apply HN0. unfold Qnat. apply Z2Qc_inj_0. }
    pose proof (proj1 (Z2Qc_inj_lt 0 (Z.of_nat N)) ltac:(lia)) as Hlt.
    by rewrite Z2Qc_inj_0 in Hlt. }
  assert (0 ≤ Qnat C) as HC0.
  { pose proof (proj1 (Z2Qc_inj_le 0 (Z.of_nat C)) ltac:(lia)) as Hle.
    by rewrite Z2Qc_inj_0 in Hle. }
  assert (Qnat C ≤ Qnat N) as HCN.
  { exact (proj1 (Z2Qc_inj_le (Z.of_nat C) (Z.of_nat N)) ltac:(lia)). }
  assert (0 ≤ QZ 100) as H100.
  { pose proof (proj1 (Z2Qc_inj_le 0 100) ltac:(lia)) as Hle.
    by rewrite Z2Qc_inj_0 in Hle. }
  split.
  - apply Qcmult_nonneg_nonneg; [by apply Qcmult_nonneg_nonneg|].
    by apply Qclt_le_weak, Qcinv_pos.
  - apply (Qcmult_lt_0_le_reg_r _ _ (Qnat N)); [done|].
    rewrite test_field by done. by apply Qcmult_le_mono_nonneg_l.
Qed.

End aggregation_more.

(** ** The further properties on the instances *)

Lemma SAVE_PATH_in_checkpoint_directory_witness :
  SAVE_PATH "/models/run1/checkpoint_best.pt" = "/models/run1/profile.pt".
Proof.
  exact (SAVE_PATH_in_checkpoint_directory
           "/models/run1" "checkpoint_best.pt" eq_refl).
Defined.

Lemma SAVE_PATH_without_slash_witness :
  SAVE_PATH "model.pt" = "model.p/profile.pt".
Proof. exact (SAVE_PATH_without_slash "model.pt" eq_refl). Defined.

Lemma test_dataset_follows_manifests_witness :
  ∃ a b,
    load_dataset example_files example_manifest_a "/data/a/" 4 = Some a ∧
    load_dataset example_files example_manifest_b "/data/b/" 4 = Some b ∧
    ds_len (test_dataset a b) = 2%nat.
Proof.
  destruct (load_dataset example_files example_manifest_a "/data/a/" 4)
    as [a|] eqn:Ea; [|by vm_compute in Ea].
  destruct (load_dataset example_files example_manifest_b "/data/b/" 4)
    as [b|] eqn:Eb; [|by vm_compute in Eb].
  exists a, b. split_and!; [done|done|].
  apply (test_dataset_follows_manifests example_files
           example_manifest_a "/data/a/" example_manifest_b "/data/b/" 4
           a b Ea Eb).
Defined.

Lemma collate_fn_batch_of_one_witness :
  ∃ d features lengths,
    getitem example_dataset 0 = Some d ∧
    collate_fn [d] = Some ([it_id d], features, [it_label d], lengths) ∧
    dim0 features = 1%nat.
Proof.
  destruct (getitem example_dataset 0) as [d|] eqn:E; [|by vm_compute in E].
  destruct (collate_fn_batch_of_one example_dataset 0 d E)
    as (f & l & Hrun & Hd0 & _).
  by exists d, f, l.
Defined.

Lemma observe_time_average_witness :
  @observe sequential_mean example_feature_model
    (["a"], Array3 1 2 2 (λ _ _ _, 0), [0%Z], Array2 1 2 (λ _ _, 1%Z))
  = Some ("a", Tensor [2%nat] [QZ 3; QZ 5]).
Proof.
  rewrite (@observe_time_average sequential_mean example_feature_model
             ["a"] (Array3 1 2 2 (λ _ _ _, 0)) [0%Z] (Array2 1 2 (λ _ _, 1%Z))
             "a" 2 2); [|reflexivity|reflexivity|reflexivity|lia|lia].
  do 2 f_equal. by_evaluation.
Defined.

Lemma observe_one_frame_witness :
  @observe sequential_mean example_one_frame_model
    (["a"], Array3 1 2 1 (λ _ _ _, 0), [0%Z], Array2 1 1 (λ _ _, 1%Z))
  = Some ("a", Tensor [] [QZ 3]).
Proof.
  rewrite (@observe_one_frame sequential_mean example_one_frame_model
             ["a"] (Array3 1 2 1 (λ _ _ _, 0)) [0%Z] (Array2 1 1 (λ _ _, 1%Z))
             "a" 2); [|reflexivity|reflexivity|reflexivity|lia].
  do 2 f_equal. by_evaluation.
Defined.

Lemma finalize_prints_the_observations_witness :
  ∃ printed count out,
    @finalize sequential_mean (accumulate example_obs)
    = Some (printed, count, out) ∧
    count = 3%nat ∧ printed.*1 = ["A"; "B"].
Proof.
  destruct (@finalize sequential_mean (accumulate example_obs))
    as [[[printed count] out]|] eqn:E; [|by vm_compute in E].
  destruct (@finalize_prints_the_observations sequential_mean
              example_obs printed count out E)
    as (Hcount & Hprinted & _).
  exists printed, count, out. split_and!; [done|done|].
  rewrite Hprinted. reflexivity.
Defined.

Lemma single_observation_profile_witness :
  ∃ fin,
    @stored_profiles sequential_mean example_obs = Some fin ∧
    dict_get fin "B" = Some (vec [QZ 5; QZ 7]).
Proof.
  destruct (@stored_profiles sequential_mean example_obs) as [fin|] eqn:E;
    [|by vm_compute in E].
  exists fin. split; [done|].
  apply (@single_observation_profile sequential_mean
           example_obs fin "B" (vec [QZ 5; QZ 7]) E);
    [reflexivity|reflexivity|by_evaluation].
Defined.


Lemma profiles_gen_missing_file_witness :
  @profiles_gen sequential_mean example_files example_feature_model
    example_manifest_a "/data/a/" [ManifestRow "lost.wav" 0 "c"] "/data/b/"
    "/models/best.pt"
  = None.
Proof.
  apply (@profiles_gen_missing_file sequential_mean example_files
           example_feature_model
           example_manifest_a "/data/a/" [ManifestRow "lost.wav" 0 "c"]
           "/data/b/" "/models/best.pt" (ManifestRow "lost.wav" 0 "c")).
  right. split; [by left | reflexivity].
Defined.

Lemma forward_raises_on_tuple_witness :
  @forward example_math example_contrastive unit example_contrastive_criterion
     (example_tuple_model [[- QZ 1; - QZ 2]]) (Sample () [1%Z] 1) true
  = None.
Proof.
  exact (@forward_raises_on_tuple example_math example_contrastive unit
           example_contrastive_criterion
           (example_tuple_model [[- QZ 1; - QZ 2]]) (Sample () [1%Z] 1) true
           [[QZ 1]] [[QZ 2]] [[QZ 3]] [[QZ 1]] [[- QZ 1; - QZ 2]] eq_refl).
Defined.

Lemma compute_loss_contrastive_sum_witness :
  ∃ outputs,
    @compute_loss example_contrastive unit example_contrastive_criterion
       (example_tuple_model [[- QZ 1; - QZ 2]])
       (Tuple5 [[QZ 1]] [[QZ 2]] [[QZ 3]] [[QZ 1]] [[- QZ 1; - QZ 2]])
       (Sample () [1%Z] 1) true
    = Some (Num (QZ 14), outputs).
Proof.
  destruct (@compute_loss example_contrastive unit
              example_contrastive_criterion
              (example_tuple_model [[- QZ 1; - QZ 2]])
              (Tuple5 [[QZ 1]] [[QZ 2]] [[QZ 3]] [[QZ 1]] [[- QZ 1; - QZ 2]])
              (Sample () [1%Z] 1) true)
    as [[loss outputs]|] eqn:E; [|by vm_compute in E].
  destruct (@compute_loss_contrastive_sum example_contrastive unit
              example_contrastive_criterion
              (example_tuple_model [[- QZ 1; - QZ 2]]) (Sample () [1%Z] 1)
              [[QZ 1]] [[QZ 2]] [[QZ 3]] [[QZ 1]] [[- QZ 1; - QZ 2]]
              loss outputs eq_refl E)
    as (lprobs & ae_loss & stacked & cl_loss & Hl & Hae & _ & Hcl & ->).
  injection Hl as <-.
  assert (Some ae_loss = Some 0) as [= ->] by (rewrite <-Hae; by_evaluation).
  assert (Some cl_loss = Some 0) as [= ->] by (by rewrite <-Hcl).
  exists outputs. do 3 f_equal. by_evaluation.
Defined.

Lemma compute_loss_returns_iff_witness :
  ¬ is_Some (@compute_loss example_contrastive unit example_criterion
               (example_model [[- QZ 1; - QZ 2]]) (Logits [[- QZ 1; - QZ 2]])
               (Sample () [2%Z] 1) true).
Proof.
  intros Hsome.
  apply (@compute_loss_returns_iff example_contrastive unit example_criterion
           (example_model [[- QZ 1; - QZ 2]]) (Logits [[- QZ 1; - QZ 2]])
           (Sample () [2%Z] 1) true [[- QZ 1; - QZ 2]] eq_refl eq_refl)
    in Hsome as (_ & _ & Ht).
  apply Forall_inv in Ht. simpl in Ht. lia.
Defined.

Lemma compute_loss_predictions_witness :
  ∃ loss preds targets,
    @compute_loss example_contrastive unit example_criterion
       (example_model [[- QZ 1; - QZ 2]; [- QZ 3; - QZ 1]])
       (Logits [[- QZ 1; - QZ 2]; [- QZ 3; - QZ 1]])
       (Sample () [0%Z; 1%Z] 2) true
    = Some (loss, (preds, targets)) ∧
    length preds = length targets.
Proof.
  destruct (@compute_loss example_contrastive unit example_criterion
              (example_model [[- QZ 1; - QZ 2]; [- QZ 3; - QZ 1]])
              (Logits [[- QZ 1; - QZ 2]; [- QZ 3; - QZ 1]])
              (Sample () [0%Z; 1%Z] 2) true)
    as [[loss [preds targets]]|] eqn:E; [|by vm_compute in E].
  destruct (@compute_loss_predictions example_contrastive unit
              example_criterion
              (example_model [[- QZ 1; - QZ 2]; [- QZ 3; - QZ 1]])
              (Logits [[- QZ 1; - QZ 2]; [- QZ 3; - QZ 1]])
              (Sample () [0%Z; 1%Z] 2) true loss preds targets eq_refl E)
    as (lprobs & _ & Hlen & _).
  by exists loss, preds, targets.
Defined.

Lemma compute_loss_nonnegative_witness :
  ∃ v outputs,
    @compute_loss example_contrastive unit example_criterion
       (example_model [[- QZ 1; - QZ 2]]) (Logits [[- QZ 1; - QZ 2]])
       (Sample () [1%Z] 1) true
    = Some (Num v, outputs) ∧ 0 ≤ v.
Proof.
  destruct (@compute_loss example_contrastive unit example_criterion
              (example_model [[- QZ 1; - QZ 2]]) (Logits [[- QZ 1; - QZ 2]])
              (Sample () [1%Z] 1) true)
    as [[loss outputs]|] eqn:E; [|by vm_compute in E].
  destruct (@compute_loss_nonnegative example_contrastive unit
              example_criterion (example_model [[- QZ 1; - QZ 2]])
              (Logits [[- QZ 1; - QZ 2]]) (Sample () [1%Z] 1)
              [[- QZ 1; - QZ 2]] loss outputs eq_refl eq_refl)
    as (v & -> & Hv).
  - by_evaluation.
  - exact E.
  - by exists v, outputs.
Defined.

Lemma forward_predicts_class_1_witness :
  ∃ loss sample_size log predicts,
    @forward example_math example_contrastive unit example_criterion
       (example_model [[- QZ 1; - QZ 2]]) (Sample () [1%Z] 1) true
    = Some (loss, sample_size, log) ∧
    log !! "predicts" = Some (Lst predicts) ∧
    length predicts = 1%nat.
Proof.
  destruct (@forward example_math example_contrastive unit example_criterion
              (example_model [[- QZ 1; - QZ 2]]) (Sample () [1%Z] 1) true)
    as [[[loss sample_size] log]|] eqn:E; [|by vm_compute in E].
  destruct (@forward_predicts_class_1 example_math example_contrastive unit
              example_criterion (example_model [[- QZ 1; - QZ 2]])
              (Sample () [1%Z] 1) true loss sample_size log
              [[- QZ 1; - QZ 2]] eq_refl E)
    as (predicts & Hp & Hall).
  exists loss, sample_size, log, predicts. split_and!; [done|done|].
  by rewrite <-(Forall2_length _ _ _ Hall).
Defined.

Lemma forward_ncorrect_bounded_witness :
  ∃ loss sample_size log c,
    @forward example_math example_contrastive unit example_criterion
       (example_model [[- QZ 1; - QZ 2]]) (Sample () [1%Z] 1) true
    = Some (loss, sample_size, log) ∧
    log !! "ncorrect" = Some (Num (Qnat c)) ∧ (c ≤ 1)%nat.
Proof.
  destruct (@forward example_math example_contrastive unit example_criterion
              (example_model [[- QZ 1; - QZ 2]]) (Sample () [1%Z] 1) true)
    as [[[loss sample_size] log]|] eqn:E; [|by vm_compute in E].
  destruct (@forward_ncorrect_bounded example_math example_contrastive unit
              example_criterion (example_model [[- QZ 1; - QZ 2]])
              (Sample () [1%Z] 1) true loss sample_size log)
    as (c & n & Hc & _ & -> & Hle).
  - intros out. reflexivity.
  - exact E.
  - by exists loss, sample_size, log, c.
Defined.

Lemma reduce_metrics_loss_witness :
  ∃ events,
    @reduce_metrics example_math example_logs = Some events ∧
    scalars_of "loss" events = [(Num (Q2Qc (5 # 2)), Num (QZ 4))].
Proof.
  destruct (@reduce_metrics example_math example_logs)
    as [events|] eqn:E; [|by vm_compute in E].
  exists events. split; [done|].
  rewrite (@reduce_metrics_loss example_math example_logs events).
  - by_evaluation.
  - repeat constructor; eexists _, _; split; reflexivity.
  - exact E.
Defined.

Lemma reduce_metrics_without_sample_size_witness :
  @reduce_metrics example_math [list_to_map [("ntokens", Num (QZ 3))]] = None.
Proof.
  apply (@reduce_metrics_without_sample_size example_math).
  apply Forall_singleton. split; reflexivity.
Defined.

Lemma reduce_metrics_accuracy_permutation_witness :
  ∃ events events',
    @reduce_metrics example_math example_logs = Some events ∧
    @reduce_metrics example_math (reverse example_logs) = Some events' ∧
    scalars_of "accuracy" events' = scalars_of "accuracy" events.
Proof.
  destruct (@reduce_metrics example_math example_logs)
    as [events|] eqn:E; [|by vm_compute in E].
  destruct (@reduce_metrics example_math (reverse example_logs))
    as [events'|] eqn:E'; [|by vm_compute in E'].
  exists events, events'. split_and!; [done|done|].
  apply (@reduce_metrics_accuracy_permutation example_math example_logs
           (reverse example_logs) events events').
  - apply Forall_cons_2; [|apply Forall_singleton].
    + exists 1%nat, 2%nat. split; reflexivity.
    + exists 2%nat, 2%nat. split; reflexivity.
  - exact (perm_swap _ _ []).
  - exact E.
  - exact E'.
Defined.

Lemma reduce_metrics_accuracy_range_witness :
  ∃ events a w,
    @reduce_metrics example_math example_logs = Some events ∧
    scalars_of "accuracy" events = [(Num a, w)] ∧ 0 ≤ a ∧ a ≤ QZ 100.
Proof.
  destruct (@reduce_metrics example_math example_logs)
    as [events|] eqn:E; [|by vm_compute in E].
  destruct (@reduce_metrics_accuracy_range example_math example_logs events)
    as (a & w & Hacc & Hlo & Hhi).
  - apply Forall_cons_2; [|apply Forall_singleton].
    + exists 1%nat, 2%nat. split_and!; [reflexivity|reflexivity|lia].
    + exists 2%nat, 2%nat. split_and!; [reflexivity|reflexivity|lia].
  - exact E.
  - by exists events, a, w.
Defined.
